(** * GitHub Actions version updater: the reconciliation core of [src/main.py]

    A shallow embedding of [GitHubActionsVersionUpdater] (extractor,
    release resolver, per-document reconciliation loop, workflow listing and
    the [run] entry point), followed by the properties established about it.

    Conventions.
    - Python [str] values are [string]s (their UTF-8 bytes); [str.split] and
      [str.replace] on a one-byte separator or a byte pattern agree with the
      code-point operations because UTF-8 is self-synchronising.
    - Parsed YAML and JSON documents are [value]s; mapping keys are scalars.
    - Everything the program does to the outside world (HTTP requests,
      diagnostics, file writes, git and pull-request calls) is recorded as an
      [event] in a log, in program order.
    - The outside world itself (remote answers, the YAML parser, the hash
      order of a Python [set], the configuration) is a [world] record. *)

From Stdlib Require Import String Ascii List ZArith Bool Arith Lia Permutation.
Import ListNotations.
Local Open Scope string_scope.
Local Open Scope list_scope.

(** ** Python string operations used by the program *)

Module PyStr.

Local Open Scope string_scope.

(** The character [@] on which references are split. *)
Definition at_sign : ascii := Ascii.ascii_of_nat 64.
Definition newline : string := String (Ascii.ascii_of_nat 10) EmptyString.

(** [s.split(sep)] for a one-character separator: the (non-empty) list of the
    maximal pieces between separators, empty pieces included. *)
Fixpoint split (sep : ascii) (s : string) : list string :=
  match s with
  | EmptyString => [EmptyString]
  | String c s' =>
      if Ascii.eqb c sep then EmptyString :: split sep s'
      else match split sep s' with
           | p :: ps => String c p :: ps
           | [] => [String c EmptyString]
           end
  end.

(** Number of occurrences of a character. *)
Fixpoint count_char (c : ascii) (s : string) : nat :=
  match s with
  | EmptyString => 0
  | String d s' => (if Ascii.eqb d c then 1 else 0) + count_char c s'
  end.

Fixpoint drop (n : nat) (s : string) : string :=
  match n, s with
  | S n', String _ s' => drop n' s'
  | _, _ => s
  end.

(** [old in s]: [old] occurs as a contiguous substring of [s]. *)
Fixpoint occurs (old s : string) : bool :=
  prefix old s ||
  match s with
  | EmptyString => false
  | String _ s' => occurs old s'
  end.

(** Left-to-right scan of [str.replace] for a non-empty pattern: at each
    position, a match emits [new] and jumps over the match, otherwise the
    character is copied.  [n] bounds the number of characters still to scan. *)
Fixpoint replace_scan (n : nat) (old new s : string) : string :=
  match n, s with
  | S n', String c s' =>
      if prefix old s then new ++ replace_scan n' old new (drop (String.length old) s)
      else String c (replace_scan n' old new s')
  | _, _ => s
  end.

(** With the empty pattern Python inserts [new] before every character and
    at the end. *)
Fixpoint interleave (new s : string) : string :=
  match s with
  | EmptyString => new
  | String c s' => new ++ String c (interleave new s')
  end.

(** [s.replace(old, new)]. *)
Definition replace (old new s : string) : string :=
  match old with
  | EmptyString => interleave new s
  | String _ _ => replace_scan (String.length s) old new s
  end.

End PyStr.

(** ** Parsed documents

    What [yaml.load] and [response.json()] return: scalars, sequences and
    mappings.  Numbers are integers here (a float behaves like an integer in
    every operation the program applies: it is hashable, has no [split], is
    neither iterable nor subscriptable).  Mapping keys are scalars, in
    document order; a Python [dict] holds each key once. *)

Inductive scalar : Type :=
| SNone
| SBool (b : bool)
| SInt (z : Z)
| SStr (s : string).

#[warnings="-register-all"]
Inductive value : Type :=
| VScalar (c : scalar)
| VList (items : list value)
| VDict (entries : list (scalar * value)).

Definition VStr (s : string) : value := VScalar (SStr s).

(** Python [==] on scalars ([True == 1] and [False == 0] hold, and equal
    values hash alike, so a [set] or [dict] identifies them). *)
Definition py_eqb (a b : scalar) : bool :=
  match a, b with
  | SNone, SNone => true
  | SBool x, SBool y => Bool.eqb x y
  | SInt x, SInt y => Z.eqb x y
  | SBool x, SInt y => Z.eqb (Z.b2z x) y
  | SInt x, SBool y => Z.eqb x (Z.b2z y)
  | SStr s, SStr t => String.eqb s t
  | _, _ => false
  end.

(** [key == name] for a string [name]. *)
Definition key_is (key : scalar) (name : string) : bool := py_eqb key (SStr name).

(** ** Exceptions, events and the state threaded through [run] *)

Inductive exn : Type :=
| SystemExit (code : Z)
| TypeError
| AttributeError
| KeyError
| OSError
| YAMLError
| JSONDecodeError.

(** [SystemExit] derives from [BaseException], not from [Exception]: the
    handler [except Exception] of [run] lets it through. *)
Definition is_Exception (e : exn) : bool :=
  match e with
  | SystemExit _ => false
  | _ => true
  end.

Inductive event : Type :=
| GetWorkflows                                     (* GET .../actions/workflows *)
| GetLatestRelease (action_repository : string)    (* GET .../releases/latest *)
| ErrorWorkflows (status : Z)
| WarningNoWorkflow
| EchoIgnored (ignored : list string)
| GroupChecking (workflow_path : string)
| WarningWrongFormat (action : string)
| WarningNoRelease (action_repository : string) (status : Z)
| EchoFound (action_repository : string)
| EchoUpdating (action updated_action : string)
| EchoNoUpdates (action_repository : string)
| FileWrite (workflow_path : string) (data : string)
| EchoSkipping (workflow_path : value)
| AppendJobSummary (pull_request_body : string)
| CreateNewGitBranch (timestamp : Z)
| GitCommitChanges (timestamp : Z)
| CreatePullRequest (timestamp : Z) (pull_request_body : string)
| AddGitDiffToJobSummary
| ErrorSkippingPullRequest
| NoticeUpToDate.

(** The working tree (path and content of each file), the set
    [pull_request_body_lines] shared by all documents of a run, and the log. *)
Record state : Type := mkState {
  files : list (string * string);
  pull_request_body_lines : list string;
  log : list event
}.

(** A computation returns a value or raises; the state reached is kept in
    both cases (a raised exception does not undo what was logged or added
    to [pull_request_body_lines]). *)
Definition M (A : Type) : Type := state -> (exn + A) * state.

Definition ret {A : Type} (a : A) : M A := fun s => (inr a, s).

Definition raise {A : Type} (e : exn) : M A := fun s => (inl e, s).

Definition bind {A B : Type} (m : M A) (k : A -> M B) : M B :=
  fun s =>
    match m s with
    | (inr a, s') => k a s'
    | (inl e, s') => (inl e, s')
    end.

Notation "x <- m ;; k" := (bind m (fun x => k))
  (at level 61, m at next level, right associativity).
Notation "m ;; k" := (bind m (fun _ => k))
  (at level 61, right associativity).

Definition lift {A : Type} (r : exn + A) : M A := fun s => (r, s).

Definition emit (ev : event) : M unit :=
  fun s => (inr tt, mkState (files s) (pull_request_body_lines s) (log s ++ [ev])).

(** [try: body / except Exception: handler]. *)
Definition try_except {A : Type} (body : M A) (handler : exn -> M A) : M A :=
  fun s =>
    match body s with
    | (inl e, s') => if is_Exception e then handler e s' else (inl e, s')
    | (inr a, s') => (inr a, s')
    end.

(** ** The outside world *)

(** The four fields [get_latest_release] reads from a release body
    (the source types them as [dict[str, str]]). *)
Record release : Type := mkRelease {
  published_at : string;
  html_url : string;
  tag_name : string;
  body : string
}.

(** Answer to [GET /repos/{action_repository}/releases/latest].  The body
    of a status-200 answer is taken to be a JSON object, as the API sends;
    [release_json = None] stands for an object that lacks one of the four
    fields, on which the subscript raises [KeyError] (lines 171-176). *)
Record release_response : Type := mkReleaseResponse {
  release_status : Z;
  release_json : option release
}.

(** Answer to [GET /repos/{repository}/actions/workflows].
    [json = None] stands for a body that is not JSON. *)
Record response : Type := mkResponse {
  status_code : Z;
  json : option value
}.

(** What a run depends on and does not compute.  The remote answers are the
    same throughout a run. *)
Record world : Type := mkWorld {
  ignore_actions : list string;          (* user_config.ignore_actions *)
  skip_pull_request : bool;              (* user_config.skip_pull_request *)
  workflows_response : response;
  latest_release : string -> release_response;
  yaml_load : string -> option value;    (* None: the parser raises *)
  py_hash : scalar -> nat;               (* fixes the iteration order of sets *)
  git_has_changes : list (string * string) -> bool;
  time : Z
}.

(** ** Python sets *)

Definition set_add (c : scalar) (s : list scalar) : list scalar :=
  if existsb (py_eqb c) s then s else s ++ [c].

(** [set(iterable)]: a mapping or a sequence is unhashable. *)
Fixpoint set_from (items : list value) (acc : list scalar) : exn + list scalar :=
  match items with
  | [] => inr acc
  | VScalar c :: rest => set_from rest (set_add c acc)
  | _ :: _ => inl TypeError
  end.

Definition py_set (items : list value) : exn + list scalar := set_from items [].

(** [s.difference_update(ignored)] for a collection of strings. *)
Definition difference_update (s : list scalar) (ignored : list string) : list scalar :=
  filter (fun c => negb (existsb (fun i => py_eqb c (SStr i)) ignored)) s.

(** Iterating a set visits its elements in an order fixed by their hashes:
    here by increasing hash, insertion order among equal hashes.  Every
    order of distinct elements is the order of some hash function. *)
Fixpoint insert_by {A : Type} (h : A -> nat) (x : A) (l : list A) : list A :=
  match l with
  | [] => [x]
  | y :: l' => if (h y <=? h x)%nat then y :: insert_by h x l' else x :: y :: l'
  end.

Definition set_iteration {A : Type} (h : A -> nat) (s : list A) : list A :=
  fold_left (fun acc x => insert_by h x acc) s [].

(** [lines.add(line)] on the set of strings. *)
Definition lines_add (line : string) (lines : list string) : list string :=
  if existsb (String.eqb line) lines then lines else lines ++ [line].

Definition add_line (line : string) : M unit :=
  fun s =>
    (inr tt,
     mkState (files s) (lines_add line (pull_request_body_lines s)) (log s)).

(** ** [GitHubActionsVersionUpdater] *)

Definition github_url : string := "https://github.com/".
Definition workflow_action_key : string := "uses".

(** [get_all_actions] (lines 203-214). *)
Fixpoint get_all_actions (data : value) : list value :=
  match data with
  | VDict entries =>
      (fix items (es : list (scalar * value)) : list value :=
         match es with
         | [] => []
         | (key, v) :: es' =>
             (if key_is key workflow_action_key then [v]
              else match v with
                   | VDict _ | VList _ => get_all_actions v
                   | VScalar _ => []
                   end) ++ items es'
         end) entries
  | VList elements =>
      (fix each (l : list value) : list value :=
         match l with
         | [] => []
         | element :: l' => get_all_actions element ++ each l'
         end) elements
  | VScalar _ => []
  end.

(** [generate_pull_request_body_line] (lines 148-157). *)
Definition generate_pull_request_body_line
    (action_repository : string) (latest : release) : string :=
  ("* **[" ++ action_repository ++ "](" ++ github_url ++ action_repository ++ ")** "
   ++ "published a new release "
   ++ "[" ++ tag_name latest ++ "](" ++ html_url latest ++ ") "
   ++ "on " ++ published_at latest ++ PyStr.newline)%string.

(** [get_latest_release] (lines 159-184); [None] is the empty dict. *)
Definition get_latest_release (w : world) (action_repository : string)
    : M (option release) :=
  emit (GetLatestRelease action_repository) ;;
  let response := latest_release w action_repository in
  if (release_status response =? 200)%Z then
    match release_json response with
    | Some data => ret (Some data)
    | None => raise KeyError
    end
  else
    emit (WarningNoRelease action_repository (release_status response)) ;;
    ret None.

(** [updated_action] (lines 83-85). *)
Definition updated_action (action_repository : string) (latest : release) : string :=
  (action_repository ++ String PyStr.at_sign (tag_name latest))%string.

(** One iteration of [for action in all_action_set] (lines 68-106), on the
    locals [updated_workflow_data] and [workflow_updated]. *)
Definition check_action (w : world) (action : scalar)
    (locals : string * bool) : M (string * bool) :=
  match action with
  | SStr a =>
      match PyStr.split PyStr.at_sign a with
      | [action_repository; version] =>
          latest <- get_latest_release w action_repository ;;
          match latest with
          | None => ret locals
          | Some rel =>
              if String.eqb a (updated_action action_repository rel) then
                emit (EchoNoUpdates action_repository) ;;
                ret locals
              else
                emit (EchoFound action_repository) ;;
                add_line (generate_pull_request_body_line action_repository rel) ;;
                emit (EchoUpdating a (updated_action action_repository rel)) ;;
                ret (PyStr.replace a (updated_action action_repository rel) (fst locals),
                     true)
          end
      | _ =>
          (* unpacking raises ValueError, caught on the spot *)
          emit (WarningWrongFormat a) ;;
          ret locals
      end
  | _ =>
      (* no attribute [split]; [except ValueError] does not apply *)
      raise AttributeError
  end.

Fixpoint check_actions (w : world) (actions : list scalar)
    (locals : string * bool) : M (string * bool) :=
  match actions with
  | [] => ret locals
  | action :: rest =>
      locals' <- check_action w action locals ;;
      check_actions w rest locals'
  end.

(** The references a document is checked for, in processing order
    (lines 64-68). *)
Definition actions_to_check (w : world) (data : value) : exn + list scalar :=
  match py_set (get_all_actions data) with
  | inr all_action_set =>
      inr (set_iteration (py_hash w) (difference_update all_action_set (ignore_actions w)))
  | inl e => inl e
  end.

(** Lines 60-106: from the text read to the text to write and the flag. *)
Definition reconcile (w : world) (file_data : string) : M (string * bool) :=
  match yaml_load w file_data with
  | None => raise YAMLError
  | Some data =>
      actions <- lift (actions_to_check w data) ;;
      check_actions w actions (file_data, false)
  end.

Fixpoint read_file (fs : list (string * string)) (path : string) : option string :=
  match fs with
  | [] => None
  | (p, d) :: fs' => if String.eqb p path then Some d else read_file fs' path
  end.

Fixpoint write_file (fs : list (string * string)) (path data : string)
    : list (string * string) :=
  match fs with
  | [] => []
  | (p, d) :: fs' =>
      if String.eqb p path then (p, data) :: fs' else (p, d) :: write_file fs' path data
  end.

(** [open(workflow_path, "r+")] followed by [file.read()]: the file must
    exist.  A path that is no string raises (an integer would name a file
    descriptor; none is taken to be open). *)
Definition open_and_read (workflow_path : value) : M (string * string) :=
  fun s =>
    match workflow_path with
    | VScalar (SStr p) =>
        match read_file (files s) p with
        | Some file_data => (inr (p, file_data), s)
        | None => (inl OSError, s)
        end
    | VScalar (SInt _) | VScalar (SBool _) => (inl OSError, s)
    | _ => (inl TypeError, s)
    end.

(** [file.seek(0); file.write(data); file.truncate()]. *)
Definition overwrite (path data : string) : M unit :=
  fun s =>
    (inr tt,
     mkState (write_file (files s) path data)
             (pull_request_body_lines s)
             (log s ++ [FileWrite path data])).

(** One iteration of [for workflow_path in workflow_paths] (lines 53-113). *)
Definition check_workflow (w : world) (workflow_path : value) : M unit :=
  try_except
    (opened <- open_and_read workflow_path ;;
     emit (GroupChecking (fst opened)) ;;
     result <- reconcile w (snd opened) ;;
     if snd result then overwrite (fst opened) (fst result) else ret tt)
    (fun _ => emit (EchoSkipping workflow_path)).

Fixpoint check_workflows (w : world) (workflow_paths : list value) : M unit :=
  match workflow_paths with
  | [] => ret tt
  | workflow_path :: rest =>
      check_workflow w workflow_path ;;
      check_workflows w rest
  end.

(** Subscripting [v[name]] with a string: only a mapping can take it. *)
Definition getitem (v : value) (name : string) : exn + value :=
  match v with
  | VDict entries =>
      match find (fun kv => key_is (fst kv) name) entries with
      | Some kv => inr (snd kv)
      | None => inl KeyError
      end
  | _ => inl TypeError
  end.

Fixpoint characters (s : string) : list value :=
  match s with
  | EmptyString => []
  | String c s' => VStr (String c EmptyString) :: characters s'
  end.

(** [for x in v]: a sequence gives its elements, a mapping its keys, a
    string its characters; nothing else is iterable. *)
Definition iterate (v : value) : exn + list value :=
  match v with
  | VList items => inr items
  | VDict entries => inr (map (fun kv => VScalar (fst kv)) entries)
  | VScalar (SStr s) => inr (characters s)
  | VScalar _ => inl TypeError
  end.

(** [[f(x) for x in items]]: the first failure aborts. *)
Fixpoint comprehension (f : value -> exn + value) (items : list value)
    : exn + list value :=
  match items with
  | [] => inr []
  | x :: rest =>
      match f x with
      | inl e => inl e
      | inr y =>
          match comprehension f rest with
          | inl e => inl e
          | inr ys => inr (y :: ys)
          end
      end
  end.

(** [[workflow["path"] for workflow in body["workflows"]]] (line 195). *)
Definition workflow_paths_of (body : value) : exn + list value :=
  match getitem body "workflows" with
  | inl e => inl e
  | inr workflows =>
      match iterate workflows with
      | inl e => inl e
      | inr items => comprehension (fun workflow => getitem workflow "path") items
      end
  end.

(** [get_workflow_paths] (lines 186-201). *)
Definition get_workflow_paths (w : world) : M (list value) :=
  emit GetWorkflows ;;
  let response := workflows_response w in
  if (status_code response =? 200)%Z then
    match json response with
    | None => raise JSONDecodeError
    | Some body => lift (workflow_paths_of body)
    end
  else
    emit (ErrorWorkflows (status_code response)) ;;
    raise (SystemExit 1).

(** The pull-request body (lines 117-119); the set is joined in its
    iteration order. *)
Definition pull_request_body (w : world) (lines : list string) : string :=
  ("### GitHub Actions Version Updates" ++ PyStr.newline
   ++ String.concat EmptyString (set_iteration (fun l => py_hash w (SStr l)) lines))%string.

(** [pull_request_body_lines = set()] (line 39). *)
Definition new_lines : M unit :=
  fun s => (inr tt, mkState (files s) [] (log s)).

(** [run] (lines 36-146).  The git and pull-request helpers live outside
    [main.py]; they are taken to succeed, and [git_has_changes] to answer
    from the working tree. *)
Definition run (w : world) : M unit :=
  workflow_paths <- get_workflow_paths w ;;
  new_lines ;;
  match workflow_paths with
  | [] =>
      emit WarningNoWorkflow ;;
      raise (SystemExit 0)
  | _ :: _ =>
      match ignore_actions w with
      | [] => ret tt
      | _ :: _ => emit (EchoIgnored (ignore_actions w))
      end ;;
      check_workflows w workflow_paths ;;
      fun s =>
        (if git_has_changes w (files s) then
           emit (AppendJobSummary (pull_request_body w (pull_request_body_lines s))) ;;
           if negb (skip_pull_request w) then
             emit (CreateNewGitBranch (time w)) ;;
             emit (GitCommitChanges (time w)) ;;
             emit (CreatePullRequest (time w)
                     (pull_request_body w (pull_request_body_lines s)))
           else
             emit AddGitDiffToJobSummary ;;
             emit ErrorSkippingPullRequest ;;
             raise (SystemExit 1)
         else
           emit NoticeUpToDate) s
  end.

(** How [run] ends: it returns and lets the script reach its end, it raises
    [SystemExit(code)], or another exception escapes it.  The exit status
    the process ends with is [exit_status] below. *)
Inductive termination : Type :=
| Exit (code : Z)
| Unhandled (e : exn).

Definition termination_of (r : exn + unit) : termination :=
  match r with
  | inr _ => Exit 0
  | inl (SystemExit code) => Exit code
  | inl e => Unhandled e
  end.



(** ** Vocabulary of the statements *)

(** [stored_under name v d]: somewhere inside [d], at any depth under
    mappings and sequences, a mapping has the key [name] with value [v]. *)
Inductive stored_under (name : string) (v : value) : value -> Prop :=
| stored_here (entries : list (scalar * value)) (key : scalar) :
    In (key, v) entries -> key_is key name = true ->
    stored_under name v (VDict entries)
| stored_in_entry (entries : list (scalar * value)) (key : scalar) (child : value) :
    In (key, child) entries -> stored_under name v child ->
    stored_under name v (VDict entries)
| stored_in_item (items : list value) (child : value) :
    In child items -> stored_under name v child ->
    stored_under name v (VList items).

(** [found_under name v d]: the same, except that the search does not enter
    the value of a key [name]. *)
Inductive found_under (name : string) (v : value) : value -> Prop :=
| found_here (entries : list (scalar * value)) (key : scalar) :
    In (key, v) entries -> key_is key name = true ->
    found_under name v (VDict entries)
| found_in_entry (entries : list (scalar * value)) (key : scalar) (child : value) :
    In (key, child) entries -> key_is key name = false ->
    found_under name v child ->
    found_under name v (VDict entries)
| found_in_item (items : list value) (child : value) :
    In child items -> found_under name v child ->
    found_under name v (VList items).

(** The state with more events logged. *)
Definition logged (s : state) (events : list event) : state :=
  mkState (files s) (pull_request_body_lines s) (log s ++ events).

(** What [check_action] finds out about one element of the set. *)
Inductive verdict : Type :=
| NotAString
| WrongFormat (a : string)
| LookupRaises (action_repository : string)
| NoRelease (action_repository : string) (status : Z)
| UpToDate (action_repository : string)
| Outdated (a action_repository : string) (latest : release).

Definition verdict_of (w : world) (action : scalar) : verdict :=
  match action with
  | SStr a =>
      match PyStr.split PyStr.at_sign a with
      | [action_repository; version] =>
          let response := latest_release w action_repository in
          if (release_status response =? 200)%Z then
            match release_json response with
            | Some rel =>
                if String.eqb a (updated_action action_repository rel)
                then UpToDate action_repository
                else Outdated a action_repository rel
            | None => LookupRaises action_repository
            end
          else NoRelease action_repository (release_status response)
      | _ => WrongFormat a
      end
  | _ => NotAString
  end.


(** The reference [a] splits into [action_repository] and a version, the
    release lookup succeeds, and the latest tag is not that version. *)
Definition outdated (w : world) (a action_repository : string) (latest : release) : Prop :=
  exists version,
    PyStr.split PyStr.at_sign a = [action_repository; version] /\
    release_status (latest_release w action_repository) = 200%Z /\
    release_json (latest_release w action_repository) = Some latest /\
    tag_name latest <> version.

(** No element of the list makes [check_action] raise. *)
Definition all_checkable (w : world) (actions : list scalar) : Prop :=
  Forall (fun c => verdict_of w c <> NotAString /\
                   forall r, verdict_of w c <> LookupRaises r) actions.


(** The echo of the ignore set (lines 48-51), made only when it is not empty. *)
Definition ignore_echo (w : world) : list event :=
  match ignore_actions w with
  | [] => []
  | _ :: _ => [EchoIgnored (ignore_actions w)]
  end.

(** [v] is a mapping whose key [name] holds [x]. *)
Definition has_field (v : value) (name : string) (x : value) : Prop :=
  exists entries kv,
    v = VDict entries /\
    find (fun kv => key_is (fst kv) name) entries = Some kv /\
    snd kv = x.

(** The shape of a listing: a mapping with a [workflows] list whose entries
    are mappings with a [path] field; [paths] are those fields, in order. *)
Definition listing_shape (body : value) (paths : list value) : Prop :=
  exists workflows,
    has_field body "workflows" (VList workflows) /\
    Forall2 (fun workflow path => has_field workflow "path" path) workflows paths.

(** The state with a new, empty set of lines. *)
Definition cleared (s : state) : state := mkState (files s) [] (log s).

(** The state in which [run] asks git for changes: after the listing, the
    echo of the ignore set and the check of every workflow. *)
Definition after_workflows (w : world) (workflow_paths : list value) (s : state) : state :=
  snd (check_workflows w workflow_paths
         (logged (cleared s) (GetWorkflows :: ignore_echo w))).

(** ** Sample worlds

    Concrete surroundings on which the model is run: a release service that
    knows the latest tag of some repositories, a parser given by the
    documents it is asked about, a hash that ranks strings in a chosen order,
    and a working tree compared with the committed one. *)

Definition sample_releases (tags : list (string * string)) (r : string) : release_response :=
  match find (fun p => String.eqb (fst p) r) tags with
  | Some p =>
      mkReleaseResponse 200
        (Some (mkRelease "2024-01-01T00:00:00Z"
                 ("https://github.com/" ++ r ++ "/releases/tag/" ++ snd p)%string
                 (snd p) EmptyString))
  | None => mkReleaseResponse 404 None
  end.

Definition sample_listing (paths : list string) : response :=
  mkResponse 200
    (Some (VDict [(SStr "workflows",
                   VList (map (fun p => VDict [(SStr "path", VStr p)]) paths))])).

Definition sample_parser (documents : list (string * value)) (text : string) : option value :=
  match find (fun d => String.eqb (fst d) text) documents with
  | Some d => Some (snd d)
  | None => None
  end.

(** Position of a scalar in [order] (its length when absent). *)
Fixpoint rank (order : list scalar) (c : scalar) : nat :=
  match order with
  | [] => 0
  | x :: rest => if py_eqb x c then 0 else S (rank rest c)
  end.

Fixpoint tree_eqb (t1 t2 : list (string * string)) : bool :=
  match t1, t2 with
  | [], [] => true
  | (p1, d1) :: r1, (p2, d2) :: r2 => String.eqb p1 p2 && String.eqb d1 d2 && tree_eqb r1 r2
  | _, _ => false
  end.

Definition differs_from (committed : list (string * string)) (tree : list (string * string)) : bool :=
  negb (tree_eqb tree committed).

(** One workflow, [ci.yml], with two steps. *)
Definition steps_text (first second : string) : string :=
  ("steps:" ++ PyStr.newline ++ "- uses: " ++ first ++ PyStr.newline
   ++ "- uses: " ++ second ++ PyStr.newline)%string.

Definition steps_value (first second : value) : value :=
  VDict [(SStr "steps",
          VList [VDict [(SStr "uses", first)]; VDict [(SStr "uses", second)]])].

Definition fresh : state := mkState [] [] [].

(** The world of a repository whose committed tree is [committed]. *)
Definition sample_world (ignored : list string) (skip : bool)
    (tags : list (string * string)) (documents : list (string * value))
    (hash : scalar -> nat) (committed : list (string * string)) : world :=
  mkWorld ignored skip (sample_listing (map fst committed))
    (sample_releases tags) (sample_parser documents) hash
    (differs_from committed) 1700000000.

Definition checkout_text : string :=
  steps_text "actions/checkout@v3" "actions/checkout@v3".

Definition checkout_world : world :=
  sample_world [] false [("actions/checkout", "v4")]
    [(checkout_text,
      steps_value (VStr "actions/checkout@v3") (VStr "actions/checkout@v3"))]
    (rank []) [("ci.yml", checkout_text)].

(** [owner/repo] has the latest release [v1]; the document uses
    [owner/repo@v1] and [owner/repo@v0]. *)
Definition owner_repo_text : string := steps_text "owner/repo@v0" "owner/repo@v1".

Definition owner_repo_world (ignored : list string) : world :=
  sample_world ignored false [("owner/repo", "v1")]
    [(owner_repo_text, steps_value (VStr "owner/repo@v0") (VStr "owner/repo@v1"))]
    (rank [SStr "owner/repo@v0"; SStr "owner/repo@v1"]) [("ci.yml", owner_repo_text)].

(** A double-quoted YAML scalar with an escape: the text
    [- uses: "a/b\x40v1"] holds the reference [a/b@v1], which does not occur
    in it verbatim. *)
Definition double_quote : string := String (Ascii.ascii_of_nat 34) EmptyString.

Definition escaped_text : string :=
  ("steps:" ++ PyStr.newline ++ "- uses: " ++ double_quote ++ "a/b\x40v1"
   ++ double_quote ++ PyStr.newline)%string.

Definition escaped_world : world :=
  sample_world [] false [("a/b", "v2")]
    [(escaped_text, VDict [(SStr "steps", VList [VDict [(SStr "uses", VStr "a/b@v1")]])])]
    (rank []) [("ci.yml", escaped_text)].

(** A document with [uses: 5] next to [uses: a/b@v1]; [a/b] has the latest
    release [v2].  [order] ranks the two elements of the set. *)
Definition number_text : string := steps_text "5" "a/b@v1".

Definition number_world (order : list scalar) : world :=
  sample_world [] false [("a/b", "v2")]
    [(number_text, steps_value (VScalar (SInt 5)) (VStr "a/b@v1"))]
    (rank order) [("ci.yml", number_text)].


(** A listing answered with status 200 and the body
    [{"workflows": {}}]: [workflows] is a mapping, not a list. *)
Definition empty_mapping_world : world :=
  mkWorld [] false
    (mkResponse 200 (Some (VDict [(SStr "workflows", VDict [])])))
    (sample_releases []) (sample_parser []) (rank []) (differs_from []) 1700000000.


(** [a/b] has the latest release [v1.1]; the document uses [a/b@v1] and
    [a/b@v1.1].  The parser knows the document and what one reconciliation
    makes of it.  [hash] is any hash function. *)
Definition prefix_text : string := steps_text "a/b@v1" "a/b@v1.1".
Definition prefix_text_once : string := steps_text "a/b@v1.1" "a/b@v1.1.1".
Definition prefix_text_twice : string := steps_text "a/b@v1.1" "a/b@v1.1".

Definition prefix_world (hash : scalar -> nat) : world :=
  sample_world [] false [("a/b", "v1.1")]
    [(prefix_text, steps_value (VStr "a/b@v1") (VStr "a/b@v1.1"));
     (prefix_text_once, steps_value (VStr "a/b@v1.1") (VStr "a/b@v1.1.1"))]
    hash [("ci.yml", prefix_text)].

(** [a/b] has the latest release [v2]; the document uses [a/b@v1] and
    [a/b@v10]. *)
Definition overlap_text : string := steps_text "a/b@v1" "a/b@v10".

Definition overlap_world (hash : scalar -> nat) : world :=
  sample_world [] false [("a/b", "v2")]
    [(overlap_text, steps_value (VStr "a/b@v1") (VStr "a/b@v10"))]
    hash [("ci.yml", overlap_text)].


(** The workflow of [checkout_world] when the latest release is [v3]. *)
Definition up_to_date_world : world :=
  sample_world [] false [("actions/checkout", "v3")]
    [(checkout_text,
      steps_value (VStr "actions/checkout@v3") (VStr "actions/checkout@v3"))]
    (rank []) [("ci.yml", checkout_text)].

(** ** [create_pr.py]

    The script reads two environment variables, reads the file [changes]
    under the root directory of its configuration, and opens one pull
    request whose body is a fixed template around that text.  The
    configuration class and the GitHub client live outside the file: the
    three configuration values it uses are a record, and the call to
    [create_pull] is the result of the script. *)

Module CreatePr.

Record config : Type := mkConfig {
  rootdir : string;
  repo : string;
  pr_title : string
}.

(** The arguments of [repo.create_pull]; [head] and [base] are what
    [os.getenv] returned, [None] for a variable that is not set. *)
Record create_pull : Type := mkCreatePull {
  pull_repo : string;
  title : string;
  pull_body : string;
  head : option string;
  base : option string
}.

(** The template [body] (lines 9-17), before and after its field
    [{changes}]. *)
Definition body_before : string :=
  (PyStr.newline ++ "# Changes" ++ PyStr.newline ++ PyStr.newline)%string.

Definition body_after : string :=
  (PyStr.newline ++ PyStr.newline ++ "***" ++ PyStr.newline ++ PyStr.newline
   ++ "This pull request was created with the [Dockerfile updater](https://github.com/ludeeus/dockerfile-updater) action."
   ++ PyStr.newline)%string.

(** [body.format(changes=changes)]: the field is replaced by the text, which
    is not itself read as a template. *)
Definition body_format (changes : string) : string :=
  (body_before ++ changes ++ body_after)%string.

Definition carriage_return : ascii := Ascii.ascii_of_nat 13.
Definition line_feed : ascii := Ascii.ascii_of_nat 10.

(** Reading a file opened in text mode ([open(path, "r")], default
    newline handling): the line ends CR LF and CR are turned into LF. *)
Fixpoint universal_newlines (s : string) : string :=
  match s with
  | EmptyString => EmptyString
  | String c s' =>
      if Ascii.eqb c carriage_return then
        String line_feed
          match s' with
          | String d s'' =>
              if Ascii.eqb d line_feed then universal_newlines s''
              else universal_newlines s'
          | EmptyString => EmptyString
          end
      else String c (universal_newlines s')
  end.

(** The script (lines 5-28): [open] raises when the file does not exist;
    [fs] holds the files as they are stored. *)
Definition script (getenv : string -> option string) (c : config)
    (fs : list (string * string)) : exn + create_pull :=
  let current_branch_name := getenv "ACTION_CURRENT_BRANCH" in
  let branch_name := getenv "ACTION_BRANCHNAME" in
  match read_file fs (rootdir c ++ "/changes")%string with
  | None => inl OSError
  | Some stored =>
      let changes := universal_newlines stored in
      inr (mkCreatePull (repo c) (pr_title c) (body_format changes)
                        branch_name current_branch_name)
  end.

End CreatePr.


(** The workflow of [checkout_world] when the release answer for
    [actions/checkout] has status 200 and lacks its fields. *)
Definition fieldless_world : world :=
  mkWorld [] false (sample_listing ["ci.yml"])
    (fun _ => mkReleaseResponse 200 None)
    (sample_parser
       [(checkout_text,
         steps_value (VStr "actions/checkout@v3") (VStr "actions/checkout@v3"))])
    (rank []) (differs_from [("ci.yml", checkout_text)]) 1700000000.

(** ** Counting the requests *)

Definition is_lookup (ev : event) : bool :=
  match ev with
  | GetLatestRelease _ => true
  | _ => false
  end.

(** Number of release lookups among the events. *)
Definition count_lookups (events : list event) : nat :=
  List.length (filter is_lookup events).

(** * Properties *)

(** ** Facts about the string operations *)

Module PyStrFacts.

Import PyStr.
Local Open Scope string_scope.

Example split_reference :
  split at_sign "actions/checkout@v3" = ["actions/checkout"; "v3"].
Proof. reflexivity. Qed.

Example split_no_at : split at_sign "owner/repo" = ["owner/repo"].
Proof. reflexivity. Qed.

Example split_two_at : split at_sign "a@b@c" = ["a"; "b"; "c"].
Proof. reflexivity. Qed.

Example split_empty_ref : split at_sign "owner/repo@" = ["owner/repo"; EmptyString].
Proof. reflexivity. Qed.

Example replace_all_occurrences :
  replace "a/b@v1" "a/b@v2" "x a/b@v1 y a/b@v1" = "x a/b@v2 y a/b@v2".
Proof. reflexivity. Qed.

Example replace_inside_longer :
  replace "a/b@v1" "a/b@v2" "a/b@v10" = "a/b@v20".
Proof. reflexivity. Qed.

Example replace_non_overlapping : replace "aa" "b" "aaa" = "ba".
Proof. reflexivity. Qed.

(** *** Append *)

Lemma append_nil_r (s : string) : s ++ EmptyString = s.
Proof. induction s as [|c s IH]; simpl; [reflexivity | now rewrite IH]. Qed.

Lemma append_assoc (a b c : string) : (a ++ b) ++ c = a ++ (b ++ c).
Proof. induction a as [|x a IH]; simpl; [reflexivity | now rewrite IH]. Qed.

Lemma length_append (a b : string) :
  String.length (a ++ b) = String.length a + String.length b.
Proof. induction a as [|x a IH]; simpl; [reflexivity | now rewrite IH]. Qed.

Lemma append_inj_l (a b c : string) : a ++ b = a ++ c -> b = c.
Proof.
  induction a as [|x a IH]; simpl; intros H; [exact H|].
  injection H as H. now apply IH.
Qed.

(** *** Prefixes and occurrences *)

Lemma prefix_nil (s : string) : prefix EmptyString s = true.
Proof. destruct s; reflexivity. Qed.

Lemma prefix_cons (c d : ascii) (a s : string) :
  prefix (String c a) (String d s) = Ascii.eqb c d && prefix a s.
Proof.
  simpl. destruct (Ascii.ascii_dec c d) as [->|Hne].
  - now rewrite Ascii.eqb_refl.
  - apply Ascii.eqb_neq in Hne. now rewrite Hne.
Qed.

Lemma prefix_split (old s : string) :
  prefix old s = true -> s = old ++ drop (String.length old) s.
Proof.
  revert s. induction old as [|c old IH]; intros s H.
  - reflexivity.
  - destruct s as [|d s]; [discriminate|].
    rewrite prefix_cons in H. apply andb_true_iff in H as [Hc Hp].
    apply Ascii.eqb_eq in Hc. subst d. simpl. f_equal. now apply IH.
Qed.

Lemma prefix_append (old x y : string) :
  prefix old x = true -> prefix old (x ++ y) = true.
Proof.
  revert x. induction old as [|c old IH]; intros x H.
  - apply prefix_nil.
  - destruct x as [|d x]; [discriminate|].
    rewrite prefix_cons in H. apply andb_true_iff in H as [Hc Hp].
    simpl append. rewrite prefix_cons, Hc. simpl. now apply IH.
Qed.

Lemma prefix_self_append (old y : string) : prefix old (old ++ y) = true.
Proof.
  induction old as [|c old IH]; [apply prefix_nil|].
  simpl append. now rewrite prefix_cons, Ascii.eqb_refl.
Qed.

Lemma length_drop (n : nat) (s : string) :
  String.length (drop n s) = String.length s - n.
Proof.
  revert s. induction n as [|n IH]; intros [|c s]; simpl; auto.
Qed.

Lemma occurs_nonempty_nil (c : ascii) (old : string) :
  occurs (String c old) EmptyString = false.
Proof. reflexivity. Qed.

(** *** [split] *)

Lemma split_nonempty (sep : ascii) (s : string) : split sep s <> [].
Proof.
  destruct s as [|c s]; simpl; [discriminate|].
  destruct (Ascii.eqb c sep); [discriminate|].
  destruct (split sep s); discriminate.
Qed.

(** Joining the pieces with the separator gives the string back. *)
Lemma split_join (sep : ascii) (s : string) :
  String.concat (String sep EmptyString) (split sep s) = s.
Proof.
  induction s as [|c s IH]; [reflexivity|].
  simpl split. pose proof (split_nonempty sep s) as Hne.
  destruct (split sep s) as [|p ps]; [contradiction|].
  destruct (Ascii.eqb c sep) eqn:Hc.
  - apply Ascii.eqb_eq in Hc. subst c.
    change (String.concat (String sep EmptyString) (EmptyString :: p :: ps))
      with (String sep (String.concat (String sep EmptyString) (p :: ps))).
    now rewrite IH.
  - destruct ps as [|q qs].
    + simpl in *. now rewrite IH.
    + change (String c (p ++ String sep EmptyString
                          ++ String.concat (String sep EmptyString) (q :: qs)) = String c s).
      f_equal. exact IH.
Qed.

(** One more piece than separators. *)
Lemma split_length (sep : ascii) (s : string) :
  List.length (split sep s) = S (count_char sep s).
Proof.
  induction s as [|c s IH]; [reflexivity|].
  simpl. pose proof (split_nonempty sep s) as Hne.
  destruct (Ascii.eqb c sep); simpl.
  - now rewrite IH.
  - destruct (split sep s) as [|p ps]; [contradiction|]. exact IH.
Qed.

Lemma split_two (sep : ascii) (s r v : string) :
  split sep s = [r; v] -> s = r ++ String sep v /\ count_char sep s = 1.
Proof.
  intros H. split.
  - rewrite <- (split_join sep s), H. reflexivity.
  - pose proof (split_length sep s) as L. rewrite H in L. simpl in L. lia.
Qed.

(** *** [replace] *)

Lemma replace_scan_absent (n : nat) (old new s : string) :
  occurs old s = false -> replace_scan n old new s = s.
Proof.
  revert s. induction n as [|n IH]; intros s H; [now destruct s|].
  destruct s as [|c s]; [reflexivity|].
  cbn [occurs] in H. apply orb_false_iff in H as [Hp Ho].
  cbn [replace_scan]. rewrite Hp. f_equal. now apply IH.
Qed.

(** A pattern that does not occur leaves the text as it is. *)
Lemma replace_absent (c : ascii) (old new s : string) :
  occurs (String c old) s = false -> replace (String c old) new s = s.
Proof. intros H. unfold replace. now apply replace_scan_absent. Qed.

Lemma replace_scan_same (n : nat) (old s : string) :
  replace_scan n old old s = s.
Proof.
  revert s. induction n as [|n IH]; intros s; [now destruct s|].
  destruct s as [|c s]; [reflexivity|].
  cbn [replace_scan]. destruct (prefix old (String c s)) eqn:Hp.
  - rewrite IH. symmetry. now apply prefix_split.
  - now rewrite IH.
Qed.

Lemma occurs_cons_false (old : string) (c : ascii) (g rest : string) :
  prefix old (String c (g ++ rest)) = false ->
  occurs old g = false ->
  occurs old (String c g) = false.
Proof.
  intros Hp Hg. cbn [occurs]. rewrite Hg, orb_false_r.
  destruct (prefix old (String c g)) eqn:E; [|reflexivity].
  apply (prefix_append _ _ rest) in E. simpl append in E. congruence.
Qed.

(** What [replace] does: the text is cut at occurrences of [old] into pieces
    free of [old], and the result is the same pieces joined by [new]. *)
Lemma replace_scan_segments (c : ascii) (o new : string) (n : nat) :
  forall s, String.length s <= n ->
  exists g gs,
    s = String.concat (String c o) (g :: gs) /\
    replace_scan n (String c o) new s = String.concat new (g :: gs) /\
    Forall (fun x => occurs (String c o) x = false) (g :: gs).
Proof.
  induction n as [|n IH]; intros s Hlen.
  - destruct s; [|simpl in Hlen; lia].
    exists EmptyString, []. repeat split. constructor; [reflexivity|constructor].
  - destruct s as [|d s].
    + exists EmptyString, []. repeat split. constructor; [reflexivity|constructor].
    + cbn [replace_scan]. destruct (prefix (String c o) (String d s)) eqn:Hp.
      * pose proof (prefix_split _ _ Hp) as Hs.
        destruct (IH (drop (String.length (String c o)) (String d s))) as (g & gs & E1 & E2 & F).
        { rewrite length_drop. simpl in *. lia. }
        exists EmptyString, (g :: gs). repeat split.
        -- rewrite Hs at 1.
           change (String.concat (String c o) (EmptyString :: g :: gs))
             with (String c o ++ String.concat (String c o) (g :: gs)).
           now rewrite <- E1.
        -- rewrite E2. destruct new; reflexivity.
        -- constructor; [reflexivity | exact F].
      * destruct (IH s) as (g & gs & E1 & E2 & F).
        { simpl in Hlen. lia. }
        exists (String d g), gs. repeat split.
        -- rewrite E1 at 1. destruct gs; reflexivity.
        -- rewrite E2. destruct gs; reflexivity.
        -- pose proof (Forall_inv F) as Hg. pose proof (Forall_inv_tail F) as Hgs.
           cbv beta in Hg. constructor; [|exact Hgs].
           destruct gs as [|g' gs'].
           ++ simpl in E1. subst s.
              apply (occurs_cons_false _ _ _ EmptyString); [|exact Hg].
              now rewrite append_nil_r.
           ++ apply (occurs_cons_false _ _ _
                       (String c o ++ String.concat (String c o) (g' :: gs')));
                [|exact Hg].
              rewrite E1 in Hp. exact Hp.
Qed.

Lemma replace_segments (c : ascii) (o new s : string) :
  exists segments,
    s = String.concat (String c o) segments /\
    replace (String c o) new s = String.concat new segments /\
    Forall (fun x => occurs (String c o) x = false) segments.
Proof.
  destruct (replace_scan_segments c o new (String.length s) s (le_n _))
    as (g & gs & H).
  exists (g :: gs). exact H.
Qed.

End PyStrFacts.

(** ** The reference extractor *)

Section ValueInduction.

Variable P : value -> Prop.
Hypothesis P_scalar : forall c, P (VScalar c).
Hypothesis P_list : forall items, Forall P items -> P (VList items).
Hypothesis P_dict :
  forall entries, Forall (fun kv => P (snd kv)) entries -> P (VDict entries).

(** Induction over documents, with the hypothesis available for every
    element of a sequence and every value of a mapping. *)
Lemma value_induction : forall v, P v.
Proof.
  fix IH 1. intros [c|items|entries].
  - apply P_scalar.
  - apply P_list. revert items. fix IHitems 1. intros [|x items].
    + constructor.
    + constructor; [apply IH | apply IHitems].
  - apply P_dict. revert entries. fix IHentries 1. intros [|[k x] entries].
    + constructor.
    + constructor; [apply IH | apply IHentries].
Qed.

End ValueInduction.

Lemma get_all_actions_entry (key : scalar) (v : value) (es : list (scalar * value)) :
  get_all_actions (VDict ((key, v) :: es)) =
  (if key_is key workflow_action_key then [v] else get_all_actions v)
    ++ get_all_actions (VDict es).
Proof.
  cbn [get_all_actions]. destruct (key_is key workflow_action_key); [reflexivity|].
  destruct v; reflexivity.
Qed.

Lemma get_all_actions_item (element : value) (l : list value) :
  get_all_actions (VList (element :: l)) =
  get_all_actions element ++ get_all_actions (VList l).
Proof. reflexivity. Qed.

Lemma found_under_entries_cons (name : string) (v : value)
    (e : scalar * value) (es : list (scalar * value)) :
  found_under name v (VDict es) -> found_under name v (VDict (e :: es)).
Proof.
  intros H. inversion H as [entries key Hin Hk|entries key child Hin Hk Hc|]; subst.
  - eapply found_here; [right; exact Hin | exact Hk].
  - eapply found_in_entry; [right; exact Hin | exact Hk | exact Hc].
Qed.

Lemma found_under_items_cons (name : string) (v x : value) (l : list value) :
  found_under name v (VList l) -> found_under name v (VList (x :: l)).
Proof.
  intros H. inversion H as [| |items child Hin Hc]; subst.
  eapply found_in_item; [right; exact Hin | exact Hc].
Qed.

Lemma get_all_actions_sound (d v : value) :
  In v (get_all_actions d) -> found_under workflow_action_key v d.
Proof.
  revert d. apply (value_induction (fun d => In v (get_all_actions d) -> _)).
  - intros c H. destruct H.
  - intros items HF. induction HF as [|x l Hx HF IHl]; intros H.
    + destruct H.
    + rewrite get_all_actions_item in H. apply in_app_or in H as [H|H].
      * eapply found_in_item; [left; reflexivity | auto].
      * apply found_under_items_cons. auto.
  - intros entries HF. induction HF as [|[k x] l Hx HF IHl]; intros H.
    + destruct H.
    + rewrite get_all_actions_entry in H. apply in_app_or in H as [H|H].
      * destruct (key_is k workflow_action_key) eqn:Hk.
        -- destruct H as [<-|[]]. eapply found_here; [left; reflexivity | exact Hk].
        -- eapply found_in_entry; [left; reflexivity | exact Hk | auto].
      * apply found_under_entries_cons. auto.
Qed.

Lemma get_all_actions_here (v : value) (key : scalar) (entries : list (scalar * value)) :
  In (key, v) entries -> key_is key workflow_action_key = true ->
  In v (get_all_actions (VDict entries)).
Proof.
  intros Hin Hk. induction entries as [|[k x] es IH]; [destruct Hin|].
  rewrite get_all_actions_entry. apply in_or_app. destruct Hin as [E|Hin].
  - injection E as -> ->. rewrite Hk. left. now left.
  - right. auto.
Qed.

Lemma get_all_actions_in_entry (v child : value) (key : scalar)
    (entries : list (scalar * value)) :
  In (key, child) entries -> key_is key workflow_action_key = false ->
  In v (get_all_actions child) ->
  In v (get_all_actions (VDict entries)).
Proof.
  intros Hin Hk Hc. induction entries as [|[k x] es IH]; [destruct Hin|].
  rewrite get_all_actions_entry. apply in_or_app. destruct Hin as [E|Hin].
  - injection E as -> ->. rewrite Hk. now left.
  - right. auto.
Qed.

Lemma get_all_actions_in_item (v child : value) (items : list value) :
  In child items -> In v (get_all_actions child) ->
  In v (get_all_actions (VList items)).
Proof.
  intros Hin Hc. induction items as [|x l IH]; [destruct Hin|].
  rewrite get_all_actions_item. apply in_or_app. destruct Hin as [->|Hin]; auto.
Qed.

Lemma get_all_actions_complete (d v : value) :
  found_under workflow_action_key v d -> In v (get_all_actions d).
Proof.
  induction 1 as [entries key Hin Hk|entries key child Hin Hk _ IH|items child Hin _ IH].
  - eapply get_all_actions_here; eauto.
  - eapply get_all_actions_in_entry; eauto.
  - eapply get_all_actions_in_item; eauto.
Qed.

Lemma found_is_stored (name : string) (v d : value) :
  found_under name v d -> stored_under name v d.
Proof.
  induction 1 as [entries key Hin Hk|entries key child Hin Hk _ IH|items child Hin _ IH].
  - eapply stored_here; eauto.
  - eapply stored_in_entry; eauto.
  - eapply stored_in_item; eauto.
Qed.

(** C6, as stated, fails: a [uses] key inside the value of another [uses]
    key is not reached, because the value of a [uses] key is yielded whole
    and not searched.  Here ["a/b@v1"] is stored under a [uses] key at depth
    two and the extractor yields only the enclosing mapping. *)
Lemma extractor_does_not_enter_uses_value :
  stored_under workflow_action_key (VStr "a/b@v1")
    (VDict [(SStr "uses", VDict [(SStr "uses", VStr "a/b@v1")])]) /\
  get_all_actions (VDict [(SStr "uses", VDict [(SStr "uses", VStr "a/b@v1")])])
    = [VDict [(SStr "uses", VStr "a/b@v1")]] /\
  ~ In (VStr "a/b@v1")
       (get_all_actions (VDict [(SStr "uses", VDict [(SStr "uses", VStr "a/b@v1")])])).
Proof.
  split; [|split].
  - eapply stored_in_entry; [left; reflexivity|].
    eapply stored_here; [left; reflexivity | reflexivity].
  - reflexivity.
  - simpl. intros [H|[]]. discriminate H.
Qed.

(** C6 (amended): a document with no [uses] key at any depth yields the empty
    sequence, and the values yielded are exactly the values stored under a
    [uses] key at any depth under mappings and sequences, as long as the path
    to the key does not pass through the value of another [uses] key. *)
Theorem get_all_actions_yields_uses_values :
  (forall d, (forall v, ~ stored_under workflow_action_key v d) ->
             get_all_actions d = []) /\
  (forall d v, In v (get_all_actions d) <-> found_under workflow_action_key v d).
Proof.
  split.
  - intros d Hnone. destruct (get_all_actions d) as [|v l] eqn:E; [reflexivity|].
    exfalso. apply (Hnone v). apply found_is_stored. apply get_all_actions_sound.
    rewrite E. now left.
  - intros d v. split; [apply get_all_actions_sound | apply get_all_actions_complete].
Qed.

(** ** Sets and their iteration order *)

Lemma set_add_in (c x : scalar) (s : list scalar) :
  In x (set_add c s) -> x = c \/ In x s.
Proof.
  unfold set_add. destruct (existsb (py_eqb c) s); [now right|].
  intros H. apply in_app_or in H as [H|[H|[]]]; auto.
Qed.

Lemma set_add_keeps (c x : scalar) (s : list scalar) :
  In x s -> In x (set_add c s).
Proof.
  unfold set_add. destruct (existsb (py_eqb c) s); [auto|].
  intros H. apply in_or_app. now left.
Qed.

Lemma set_from_in (items : list value) :
  forall acc s x, set_from items acc = inr s -> In x s ->
                  In x acc \/ In (VScalar x) items.
Proof.
  induction items as [|v items IH]; intros acc s x H Hx.
  - injection H as <-. now left.
  - destruct v as [c| |]; try discriminate H. simpl in H.
    destruct (IH _ _ _ H Hx) as [Hacc|Hin].
    + apply set_add_in in Hacc as [->|Hacc]; [right; now left | now left].
    + right. now right.
Qed.

Lemma set_from_keeps (items : list value) :
  forall acc s x, set_from items acc = inr s -> In x acc -> In x s.
Proof.
  induction items as [|v items IH]; intros acc s x H Hx.
  - injection H as <-. exact Hx.
  - destruct v as [c| |]; try discriminate H. simpl in H.
    eapply IH; [exact H|]. now apply set_add_keeps.
Qed.

(** A string yielded by the extractor is an element of the set. *)
Lemma set_from_has_string (items : list value) :
  forall acc s a, set_from items acc = inr s -> In (VStr a) items -> In (SStr a) s.
Proof.
  induction items as [|v items IH]; intros acc s a H Hin; [destruct Hin|].
  destruct v as [c| |]; try discriminate H. simpl in H.
  destruct Hin as [E|Hin]; [|eauto].
  injection E as ->. eapply set_from_keeps; [exact H|].
  unfold set_add. destruct (existsb (py_eqb (SStr a)) acc) eqn:Ex.
  - apply existsb_exists in Ex as (y & Hy & Heq).
    destruct y; try discriminate Heq. simpl in Heq.
    apply String.eqb_eq in Heq. now subst.
  - apply in_or_app. right. now left.
Qed.

(** [set(...)] raises exactly when some element is a mapping or a sequence. *)
Lemma set_from_raises (items : list value) :
  forall acc, (exists v, In v items /\ forall c, v <> VScalar c) ->
              set_from items acc = inl TypeError.
Proof.
  induction items as [|v items IH]; intros acc (u & Hin & Hu); [destruct Hin|].
  destruct Hin as [->|Hin].
  - destruct u as [c| |]; [now destruct (Hu c) | reflexivity | reflexivity].
  - destruct v as [c| |]; try reflexivity. simpl. apply IH. eauto.
Qed.

Lemma set_from_returns (items : list value) :
  forall acc, Forall (fun v => exists c, v = VScalar c) items ->
              exists s, set_from items acc = inr s.
Proof.
  induction items as [|v items IH]; intros acc HF.
  - now exists acc.
  - inversion HF as [|x l [c ->] HF']; subst. simpl. apply IH. exact HF'.
Qed.

Lemma difference_update_in (s : list scalar) (ignored : list string) (x : scalar) :
  In x (difference_update s ignored) <->
  In x s /\ forall i, In i ignored -> py_eqb x (SStr i) = false.
Proof.
  unfold difference_update. rewrite filter_In. split; intros [H1 H2]; split; auto.
  - intros i Hi. apply negb_true_iff in H2.
    destruct (py_eqb x (SStr i)) eqn:E; [|reflexivity].
    assert (existsb (fun i => py_eqb x (SStr i)) ignored = true) as Hex
      by (apply existsb_exists; eauto).
    congruence.
  - apply negb_true_iff. destruct (existsb _ ignored) eqn:E; [|reflexivity].
    apply existsb_exists in E as (i & Hi & Heq). rewrite (H2 i Hi) in Heq. discriminate.
Qed.

Lemma insert_by_perm {A : Type} (h : A -> nat) (x : A) (l : list A) :
  Permutation (x :: l) (insert_by h x l).
Proof.
  induction l as [|y l IH]; simpl; [reflexivity|].
  destruct (h y <=? h x)%nat; [|reflexivity].
  rewrite perm_swap. now constructor.
Qed.

Lemma fold_insert_perm {A : Type} (h : A -> nat) (s : list A) :
  forall acc, Permutation (acc ++ s)
                          (fold_left (fun acc x => insert_by h x acc) s acc).
Proof.
  induction s as [|x s IH]; intros acc; simpl.
  - now rewrite app_nil_r.
  - rewrite <- IH. rewrite <- insert_by_perm.
    symmetry. apply Permutation_middle.
Qed.

(** Iteration visits every element of the set, once. *)
Lemma set_iteration_perm {A : Type} (h : A -> nat) (s : list A) :
  Permutation s (set_iteration h s).
Proof. exact (fold_insert_perm h s []). Qed.

Lemma set_iteration_in {A : Type} (h : A -> nat) (s : list A) (x : A) :
  In x (set_iteration h s) <-> In x s.
Proof.
  split; apply Permutation_in; [symmetry|]; apply set_iteration_perm.
Qed.

(** ** One reference *)

Import PyStr PyStrFacts.

Lemma logged_logged (s : state) (e1 e2 : list event) :
  logged (logged s e1) e2 = logged s (e1 ++ e2).
Proof. unfold logged. simpl. now rewrite app_assoc. Qed.

Lemma emit_logged (ev : event) (s : state) : emit ev s = (inr tt, logged s [ev]).
Proof. reflexivity. Qed.

(** [check_action], case by case. *)
Lemma check_action_spec (w : world) (action : scalar) (locals : string * bool) (s : state) :
  check_action w action locals s =
  match verdict_of w action with
  | NotAString => (inl AttributeError, s)
  | WrongFormat a => (inr locals, logged s [WarningWrongFormat a])
  | LookupRaises r => (inl KeyError, logged s [GetLatestRelease r])
  | NoRelease r status =>
      (inr locals, logged s [GetLatestRelease r; WarningNoRelease r status])
  | UpToDate r => (inr locals, logged s [GetLatestRelease r; EchoNoUpdates r])
  | Outdated a r rel =>
      (inr (replace a (updated_action r rel) (fst locals), true),
       mkState (files s)
               (lines_add (generate_pull_request_body_line r rel)
                          (pull_request_body_lines s))
               (log s ++ [GetLatestRelease r; EchoFound r;
                          EchoUpdating a (updated_action r rel)]))
  end.
Proof.
  destruct action as [|b|z|a]; try reflexivity.
  unfold check_action, verdict_of.
  destruct (split at_sign a) as [|r [|v [|x l]]]; try reflexivity.
  unfold get_latest_release, bind. rewrite emit_logged.
  destruct (release_status (latest_release w r) =? 200)%Z.
  - destruct (release_json (latest_release w r)) as [rel|]; [|reflexivity].
    unfold ret. destruct (String.eqb a (updated_action r rel)).
    + rewrite emit_logged, logged_logged. reflexivity.
    + rewrite emit_logged. unfold add_line. rewrite emit_logged.
      unfold logged. simpl. rewrite <- !app_assoc. reflexivity.
  - rewrite emit_logged, logged_logged. reflexivity.
Qed.

Lemma updated_action_eq (r version : string) (rel : release) :
  String.eqb (r ++ String at_sign version) (updated_action r rel) = true
  <-> tag_name rel = version.
Proof.
  unfold updated_action. rewrite String.eqb_eq. split; intros H.
  - apply append_inj_l in H. now injection H.
  - now subst.
Qed.

Lemma outdated_verdict (w : world) (a r : string) (rel : release) :
  outdated w a r rel <-> verdict_of w (SStr a) = Outdated a r rel.
Proof.
  unfold outdated, verdict_of. split.
  - intros (v & Hs & Hst & Hj & Hne). rewrite Hs, Hst, Hj. simpl.
    destruct (split_two _ _ _ _ Hs) as [-> _].
    destruct (String.eqb _ _) eqn:E; [|reflexivity].
    apply updated_action_eq in E. contradiction.
  - destruct (split at_sign a) as [|r' [|v [|x l]]] eqn:Hs; try discriminate.
    destruct (release_status (latest_release w r') =? 200)%Z eqn:Hst; [|discriminate].
    destruct (release_json (latest_release w r')) as [rel'|] eqn:Hj; [|discriminate].
    destruct (String.eqb a (updated_action r' rel')) eqn:E; [discriminate|].
    intros H. injection H as <- <-. exists v. repeat split; auto.
    + now apply Z.eqb_eq.
    + intros Ht. destruct (split_two _ _ _ _ Hs) as [Ha _]. subst a.
      apply (updated_action_eq r' v rel') in Ht. congruence.
Qed.

(** A reference is reported as wrongly formatted exactly when it does not
    hold one [@]. *)
Lemma wrong_format_verdict (w : world) (a : string) :
  verdict_of w (SStr a) = WrongFormat a <-> count_char at_sign a <> 1.
Proof.
  unfold verdict_of. pose proof (split_length at_sign a) as L.
  destruct (split at_sign a) as [|r [|v [|x l]]] eqn:Hs; simpl in L.
  - lia.
  - split; [intros _; lia | reflexivity].
  - split; [|intros H; lia].
    destruct (release_status _ =? 200)%Z; [|discriminate].
    destruct (release_json _); [|discriminate].
    destruct (String.eqb _ _); discriminate.
  - split; [intros _; lia | reflexivity].
Qed.

(** Every lookup is made for the repository part of a reference that splits
    in two. *)
Lemma verdict_repository (w : world) (action : scalar) :
  match verdict_of w action with
  | LookupRaises r' | NoRelease r' _ | UpToDate r' | Outdated _ r' _ =>
      exists a v, action = SStr a /\ split at_sign a = [r'; v]
  | _ => True
  end.
Proof.
  destruct action as [|b|z|a]; try exact I.
  unfold verdict_of.
  destruct (split at_sign a) as [|r' [|v [|x l]]] eqn:Hs; try exact I.
  destruct (release_status _ =? 200)%Z; [|eauto].
  destruct (release_json _); [|eauto].
  destruct (String.eqb _ _); eauto.
Qed.

(** What one reference leaves behind, whatever the verdict: the files are
    not touched, the log grows by events among which there is no write, and
    a release lookup is made only for the repository part of the reference. *)
Lemma check_action_frame (w : world) (action : scalar) (locals : string * bool) (s : state) :
  files (snd (check_action w action locals s)) = files s /\
  exists events,
    log (snd (check_action w action locals s)) = log s ++ events /\
    (forall p t, ~ In (FileWrite p t) events) /\
    (forall r, In (GetLatestRelease r) events ->
               exists a v, action = SStr a /\ split at_sign a = [r; v]).
Proof.
  rewrite check_action_spec.
  pose proof (verdict_repository w action) as Hr.
  destruct (verdict_of w action) as [|a'|r'|r' st|r'|a' r' rel]; simpl;
    (split; [reflexivity|]).
  - exists []. rewrite app_nil_r. repeat split; [intros p t []|intros r []].
  - eexists. split; [reflexivity|]. split.
    + intros p t [H|[]]. discriminate.
    + intros r [H|[]]. discriminate.
  - eexists. split; [reflexivity|]. split.
    + intros p t [H|[]]. discriminate.
    + intros r [H|[]]. injection H as <-. exact Hr.
  - eexists. split; [reflexivity|]. split.
    + intros p t [H|[H|[]]]; discriminate.
    + intros r [H|[H|[]]]; try discriminate. injection H as <-. exact Hr.
  - eexists. split; [reflexivity|]. split.
    + intros p t [H|[H|[]]]; discriminate.
    + intros r [H|[H|[]]]; try discriminate. injection H as <-. exact Hr.
  - eexists. split; [reflexivity|]. split.
    + intros p t [H|[H|[H|[]]]]; discriminate.
    + intros r [H|[H|[H|[]]]]; try discriminate. injection H as <-. exact Hr.
Qed.

(** [check_action] raises only [AttributeError] or [KeyError]. *)
Lemma check_action_raises (w : world) (action : scalar) (locals : string * bool)
    (s : state) (e : exn) :
  fst (check_action w action locals s) = inl e -> is_Exception e = true.
Proof.
  rewrite check_action_spec.
  destruct (verdict_of w action); simpl; intros H; try discriminate H;
    injection H as <-; reflexivity.
Qed.

Lemma verdict_outdated_inv (w : world) (c : scalar) (a r : string) (rel : release) :
  verdict_of w c = Outdated a r rel -> c = SStr a /\ outdated w a r rel.
Proof.
  intros V. assert (c = SStr a) as ->.
  { destruct c as [| | |a0]; try discriminate V. unfold verdict_of in V.
    destruct (split at_sign a0) as [|x [|y [|z l]]]; try discriminate V.
    destruct (release_status _ =? 200)%Z; [|discriminate V].
    destruct (release_json _); [|discriminate V].
    destruct (String.eqb _ _); [discriminate V|]. now injection V as ->. }
  split; [reflexivity | now apply outdated_verdict].
Qed.

Lemma lines_add_in (line x : string) (l : list string) :
  In x (lines_add line l) <-> x = line \/ In x l.
Proof.
  unfold lines_add. destruct (existsb (String.eqb line) l) eqn:E.
  - split; [now right|]. intros [->|H]; [|exact H].
    apply existsb_exists in E as (y & Hy & Heq). apply String.eqb_eq in Heq. now subst.
  - rewrite in_app_iff. simpl. intuition congruence.
Qed.

Lemma lines_add_nodup (line : string) (l : list string) :
  NoDup l -> NoDup (lines_add line l).
Proof.
  intros H. unfold lines_add. destruct (existsb (String.eqb line) l) eqn:E; [exact H|].
  apply (Permutation_NoDup (Permutation_cons_append l line)).
  constructor; [|exact H]. intros Hin.
  assert (existsb (String.eqb line) l = true) as E'
    by (apply existsb_exists; exists line; split; [exact Hin | apply String.eqb_refl]).
  congruence.
Qed.

(** ** The loop over the references of one document *)

Lemma check_actions_cons (w : world) (action : scalar) (rest : list scalar)
    (locals : string * bool) (s : state) :
  check_actions w (action :: rest) locals s =
  match check_action w action locals s with
  | (inr locals', s') => check_actions w rest locals' s'
  | (inl e, s') => (inl e, s')
  end.
Proof. reflexivity. Qed.

Lemma check_actions_frame (w : world) (actions : list scalar) :
  forall locals s,
    files (snd (check_actions w actions locals s)) = files s /\
    exists events,
      log (snd (check_actions w actions locals s)) = log s ++ events /\
      (forall p t, ~ In (FileWrite p t) events) /\
      (forall r, In (GetLatestRelease r) events ->
                 exists a v, In (SStr a) actions /\ split at_sign a = [r; v]).
Proof.
  induction actions as [|c rest IH]; intros locals s.
  - simpl. split; [reflexivity|]. exists []. rewrite app_nil_r.
    repeat split; [intros p t []|intros r []].
  - rewrite check_actions_cons.
    destruct (check_action_frame w c locals s) as (Hf & ev1 & Hl & Hw & Hg).
    destruct (check_action w c locals s) as [[e|locals'] s1]; simpl in *.
    + split; [exact Hf|]. exists ev1. repeat split; auto.
      intros r Hr. destruct (Hg r Hr) as (a & v & -> & Hs). exists a, v. split; [now left|auto].
    + destruct (IH locals' s1) as (Hf2 & ev2 & Hl2 & Hw2 & Hg2).
      split; [congruence|]. exists (ev1 ++ ev2). repeat split.
      * rewrite Hl2, Hl. now rewrite app_assoc.
      * intros p t Hin. apply in_app_or in Hin as [Hin|Hin]; [eapply Hw|eapply Hw2]; eauto.
      * intros r Hin. apply in_app_or in Hin as [Hin|Hin].
        -- destruct (Hg r Hin) as (a & v & -> & Hs). exists a, v. split; [now left|auto].
        -- destruct (Hg2 r Hin) as (a & v & Hin' & Hs). exists a, v. split; [now right|auto].
Qed.

Lemma check_actions_raises (w : world) (actions : list scalar) :
  forall locals s e,
    fst (check_actions w actions locals s) = inl e -> is_Exception e = true.
Proof.
  induction actions as [|c rest IH]; intros locals s e; [discriminate|].
  rewrite check_actions_cons.
  pose proof (check_action_raises w c locals s) as Hc.
  destruct (check_action w c locals s) as [[e'|locals'] s1]; simpl in *.
  - intros H. injection H as <-. now apply Hc.
  - apply IH.
Qed.

(** When no reference of the list is outdated, the loop changes neither the
    text, nor the flag, nor the set of lines. *)
Lemma check_actions_nothing_outdated (w : world) (actions : list scalar) :
  (forall a r rel, In (SStr a) actions -> ~ outdated w a r rel) ->
  forall locals s,
    pull_request_body_lines (snd (check_actions w actions locals s))
      = pull_request_body_lines s /\
    forall result, fst (check_actions w actions locals s) = inr result ->
                   result = locals.
Proof.
  induction actions as [|c rest IH]; intros Hno locals s.
  - simpl. split; [reflexivity|]. intros result H. now injection H.
  - rewrite check_actions_cons, check_action_spec.
    assert (forall a r rel, In (SStr a) rest -> ~ outdated w a r rel) as Hrest
      by (intros a r rel Hin; apply Hno; now right).
    destruct (verdict_of w c) as [|a'|r'|r' st|r'|a' r' rel] eqn:V;
      try (split; [reflexivity | discriminate]);
      try (destruct (IH Hrest locals (logged s [WarningWrongFormat a'])) as [H1 H2];
           now split);
      try (destruct (IH Hrest locals
                       (logged s [GetLatestRelease r'; WarningNoRelease r' st])) as [H1 H2];
           now split);
      try (destruct (IH Hrest locals
                       (logged s [GetLatestRelease r'; EchoNoUpdates r'])) as [H1 H2];
           now split).
    exfalso. destruct (verdict_outdated_inv _ _ _ _ _ V) as [-> Ho].
    apply (Hno a' r' rel); [now left | exact Ho].
Qed.

(** When no reference makes the loop raise: the loop returns, the flag is
    set as soon as one reference is outdated, and the set of lines gains the
    line of every outdated reference and nothing else, each line once. *)
Lemma check_actions_lines (w : world) (actions : list scalar) :
  all_checkable w actions ->
  forall locals s,
    NoDup (pull_request_body_lines s) ->
    exists text' flag' s',
      check_actions w actions locals s = (inr (text', flag'), s') /\
      NoDup (pull_request_body_lines s') /\
      (snd locals = true -> flag' = true) /\
      (forall line, In line (pull_request_body_lines s) ->
                    In line (pull_request_body_lines s')) /\
      (forall a r rel, In (SStr a) actions -> outdated w a r rel ->
         flag' = true /\
         In (generate_pull_request_body_line r rel) (pull_request_body_lines s')) /\
      (forall line, In line (pull_request_body_lines s') ->
         In line (pull_request_body_lines s) \/
         exists a r rel, In (SStr a) actions /\ outdated w a r rel /\
                         line = generate_pull_request_body_line r rel).
Proof.
  induction actions as [|c rest IH]; intros Hok locals s Hnd.
  - exists (fst locals), (snd locals), s. simpl. destruct locals as [t f].
    split; [reflexivity|]. split; [exact Hnd|]. split; [auto|]. split; [auto|].
    split; [intros a r rel []|auto].
  - pose proof (Forall_inv Hok) as [Hstr Hjson]. cbv beta in Hstr, Hjson.
    pose proof (Forall_inv_tail Hok) as Hrest.
    rewrite check_actions_cons, check_action_spec.
    assert (forall s1, pull_request_body_lines s1 = pull_request_body_lines s ->
              (forall a r rel, ~ verdict_of w c = Outdated a r rel) ->
              exists text' flag' s',
                check_actions w rest locals s1 = (inr (text', flag'), s') /\
                NoDup (pull_request_body_lines s') /\
                (snd locals = true -> flag' = true) /\
                (forall line, In line (pull_request_body_lines s) ->
                              In line (pull_request_body_lines s')) /\
                (forall a r rel, In (SStr a) (c :: rest) -> outdated w a r rel ->
                   flag' = true /\
                   In (generate_pull_request_body_line r rel) (pull_request_body_lines s')) /\
                (forall line, In line (pull_request_body_lines s') ->
                   In line (pull_request_body_lines s) \/
                   exists a r rel, In (SStr a) (c :: rest) /\ outdated w a r rel /\
                                   line = generate_pull_request_body_line r rel))
      as Hsame.
    { intros s1 Hl Hnot.
      destruct (IH Hrest locals s1) as (t' & f' & s' & E & N & Hf & Hk & Ho & Hn).
      { now rewrite Hl. }
      exists t', f', s'. rewrite Hl in *.
      split; [exact E|]. split; [exact N|]. split; [exact Hf|]. split; [exact Hk|]. split.
      - intros a r rel [Hc|Hin] Hout; [|now apply (Ho a r rel)].
        subst c. apply outdated_verdict in Hout. now destruct (Hnot a r rel).
      - intros line Hin. destruct (Hn line Hin) as [Hold|(a & r & rel & Hin' & Hout & El)];
          [now left|]. right. exists a, r, rel. split; [now right|]. now split. }
    destruct (verdict_of w c) as [|a'|r'|r' st|r'|a' r' rel] eqn:V.
    + now destruct Hstr.
    + apply Hsame; [reflexivity | intros; discriminate].
    + now destruct (Hjson r').
    + apply Hsame; [reflexivity | intros; discriminate].
    + apply Hsame; [reflexivity | intros; discriminate].
    + destruct (verdict_outdated_inv _ _ _ _ _ V) as [-> Hout].
      set (s1 := mkState _ _ _).
      destruct (IH Hrest (replace a' (updated_action r' rel) (fst locals), true) s1)
        as (t' & f' & s' & E & N & Hf & Hk & Ho & Hn).
      { subst s1. simpl. now apply lines_add_nodup. }
      exists t', f', s'. subst s1. cbn [pull_request_body_lines snd fst] in *.
      assert (f' = true) as -> by now apply Hf.
      split; [exact E|]. split; [exact N|]. split; [reflexivity|]. split; [|split].
      * intros line Hin. apply Hk. apply lines_add_in. now right.
      * intros a r rel0 [Hc|Hin] Hout'; [|now apply (Ho a r rel0)].
        injection Hc as <-. apply outdated_verdict in Hout'. rewrite V in Hout'.
        injection Hout' as <- <-. split; [reflexivity|].
        apply Hk. apply lines_add_in. now left.
      * intros line Hin. destruct (Hn line Hin) as [Hold|(a & r & rel0 & Hin' & Hout' & El)].
        -- apply lines_add_in in Hold as [->|Hold]; [|now left].
           right. exists a', r', rel. split; [now left|]. now split.
        -- right. exists a, r, rel0. split; [now right|]. now split.
Qed.

(** ** Rewriting an outdated reference *)

Lemma nodup_count_one (l : list string) (x : string) :
  NoDup l -> In x l -> count_occ string_dec l x = 1.
Proof.
  intros N Hin. apply (count_occ_In string_dec) in Hin.
  pose proof (proj1 (NoDup_count_occ string_dec l) N x). lia.
Qed.

(** X18: one step of the loop.  For a reference [a] that splits into a
    repository and a version, whose lookup succeeds with a latest tag
    different from that version, the step replaces every occurrence of [a]
    in the text it carries (the raw text as rewritten so far) by
    repository, [@] and latest tag (the text is cut at the occurrences of [a]
    into pieces free of [a], and the same pieces are joined by the updated
    reference), sets the flag and adds the line of that repository to the set
    of lines; and over the whole loop of a document in which no reference
    raises, the flag ends up set and the set of lines holds the line of that
    repository exactly once, every new line being the line of an outdated
    reference. *)
Theorem outdated_reference_is_rewritten
    (w : world) (a r version : string) (rel : release) :
  split at_sign a = [r; version] ->
  release_status (latest_release w r) = 200%Z ->
  release_json (latest_release w r) = Some rel ->
  tag_name rel <> version ->
  a = (r ++ String at_sign version)%string /\
  updated_action r rel = (r ++ String at_sign (tag_name rel))%string /\
  (forall locals s,
     check_action w (SStr a) locals s =
       (inr (replace a (updated_action r rel) (fst locals), true),
        mkState (files s)
                (lines_add (generate_pull_request_body_line r rel)
                           (pull_request_body_lines s))
                (log s ++ [GetLatestRelease r; EchoFound r;
                           EchoUpdating a (updated_action r rel)]))) /\
  (forall text, exists segments,
     text = String.concat a segments /\
     replace a (updated_action r rel) text
       = String.concat (updated_action r rel) segments /\
     Forall (fun piece => occurs a piece = false) segments) /\
  (forall actions locals s,
     In (SStr a) actions -> all_checkable w actions ->
     NoDup (pull_request_body_lines s) ->
     exists text' s',
       check_actions w actions locals s = (inr (text', true), s') /\
       count_occ string_dec (pull_request_body_lines s')
                 (generate_pull_request_body_line r rel) = 1 /\
       NoDup (pull_request_body_lines s') /\
       forall line, In line (pull_request_body_lines s') ->
         In line (pull_request_body_lines s) \/
         exists a' r' rel', In (SStr a') actions /\ outdated w a' r' rel' /\
                            line = generate_pull_request_body_line r' rel').
Proof.
  intros Hs Hst Hj Hne.
  assert (outdated w a r rel) as Hout by (exists version; auto).
  destruct (split_two _ _ _ _ Hs) as [Ha _].
  split; [exact Ha|]. split; [reflexivity|]. split; [|split].
  - intros locals s. rewrite check_action_spec.
    apply outdated_verdict in Hout. now rewrite Hout.
  - intros text. destruct a as [|c o].
    + destruct r; discriminate Ha.
    + apply replace_segments.
  - intros actions locals s Hin Hok Hnd.
    destruct (check_actions_lines w actions Hok locals s Hnd)
      as (t' & f' & s' & E & N & _ & _ & Ho & Hn).
    destruct (Ho a r rel Hin Hout) as [-> Hline].
    exists t', s'. split; [exact E|]. split; [now apply nodup_count_one|].
    split; [exact N | exact Hn].
Qed.

(** The scenario of the specification: [actions/checkout@v3] with latest
    release [v4]. *)
Lemma outdated_reference_is_rewritten_witness :
  check_action checkout_world (SStr "actions/checkout@v3")
    (checkout_text, false) fresh
  = (inr (steps_text "actions/checkout@v4" "actions/checkout@v4", true),
     mkState []
       [generate_pull_request_body_line "actions/checkout"
          (mkRelease "2024-01-01T00:00:00Z"
             "https://github.com/actions/checkout/releases/tag/v4" "v4" EmptyString)]
       [GetLatestRelease "actions/checkout"; EchoFound "actions/checkout";
        EchoUpdating "actions/checkout@v3" "actions/checkout@v4"]).
Proof.
  pose proof (outdated_reference_is_rewritten checkout_world
                "actions/checkout@v3" "actions/checkout" "v3"
                (mkRelease "2024-01-01T00:00:00Z"
                   "https://github.com/actions/checkout/releases/tag/v4" "v4" EmptyString)
                eq_refl eq_refl eq_refl) as H.
  assert ("v4" <> "v3")%string as Hne by discriminate.
  destruct (H Hne) as (_ & _ & Hstep & _).
  rewrite Hstep. reflexivity.
Defined.

(** C2 at its failing input: the workflow uses [a/b@v1] and [a/b@v10], the
    latest release of [a/b] is [v2], and the set yields [a/b@v1] first.
    [a/b@v10] is a well-formed reference whose latest tag differs from its
    version, and it occurs verbatim in the raw text, where replacing it by
    [a/b@v2] gives [a/b@v2] in the second step.  But the substitution made
    first for [a/b@v1] also hits the head of [a/b@v10], so when the turn of
    [a/b@v10] comes the carried text holds [a/b@v20] and no occurrence of
    [a/b@v10] is left to replace: the run writes a file whose second step is
    [a/b@v20], not [a/b@v2]. *)
Theorem outdated_reference_ends_with_wrong_version :
  outdated (overlap_world (rank [SStr "a/b@v1"; SStr "a/b@v10"])) "a/b@v10" "a/b"
    (mkRelease "2024-01-01T00:00:00Z" "https://github.com/a/b/releases/tag/v2"
       "v2" EmptyString) /\
  updated_action "a/b"
    (mkRelease "2024-01-01T00:00:00Z" "https://github.com/a/b/releases/tag/v2"
       "v2" EmptyString) = "a/b@v2" /\
  occurs "a/b@v10" overlap_text = true /\
  replace "a/b@v10" "a/b@v2" overlap_text = steps_text "a/b@v1" "a/b@v2" /\
  fst (check_action (overlap_world (rank [SStr "a/b@v1"; SStr "a/b@v10"]))
         (SStr "a/b@v1") (overlap_text, false) fresh)
  = inr (steps_text "a/b@v2" "a/b@v20", true) /\
  fst (check_action (overlap_world (rank [SStr "a/b@v1"; SStr "a/b@v10"]))
         (SStr "a/b@v10") (steps_text "a/b@v2" "a/b@v20", true) fresh)
  = inr (steps_text "a/b@v2" "a/b@v20", true) /\
  fst (reconcile (overlap_world (rank [SStr "a/b@v1"; SStr "a/b@v10"]))
         overlap_text fresh)
  = inr (steps_text "a/b@v2" "a/b@v20", true) /\
  fst (run (overlap_world (rank [SStr "a/b@v1"; SStr "a/b@v10"]))
         (mkState [("ci.yml", overlap_text)] [] [])) = inr tt /\
  files (snd (run (overlap_world (rank [SStr "a/b@v1"; SStr "a/b@v10"]))
                (mkState [("ci.yml", overlap_text)] [] [])))
  = [("ci.yml", steps_text "a/b@v2" "a/b@v20")] /\
  steps_text "a/b@v2" "a/b@v20"
  <> replace "a/b@v1" "a/b@v2" (replace "a/b@v10" "a/b@v2" overlap_text).
Proof.
  split; [exists "v10"; repeat split; discriminate|].
  repeat (split; [reflexivity|]). discriminate.
Qed.

(** ** C4: references that do not split in two *)

(** C4, as stated, fails for a reference with one [@] and an empty part:
    [split] yields two parts, so no [ValueError] is raised; the reference is
    resolved like any other.  ["owner/repo@"] is looked up and rewritten,
    and ["@v1"] is looked up under the empty repository name; neither is
    reported as wrongly formatted. *)
Lemma reference_with_empty_part_is_resolved :
  split at_sign "owner/repo@" = ["owner/repo"; EmptyString] /\
  check_action (owner_repo_world []) (SStr "owner/repo@") ("- uses: owner/repo@", false) fresh
    = (inr ("- uses: owner/repo@v1", true),
       mkState []
         [generate_pull_request_body_line "owner/repo"
            (mkRelease "2024-01-01T00:00:00Z"
               "https://github.com/owner/repo/releases/tag/v1" "v1" EmptyString)]
         [GetLatestRelease "owner/repo"; EchoFound "owner/repo";
          EchoUpdating "owner/repo@" "owner/repo@v1"]) /\
  split at_sign "@v1" = [EmptyString; "v1"] /\
  check_action (owner_repo_world []) (SStr "@v1") ("- uses: @v1", false) fresh
    = (inr ("- uses: @v1", false),
       mkState [] [] [GetLatestRelease EmptyString; WarningNoRelease EmptyString 404]).
Proof. repeat split. Qed.

(** C4 (amended): a reference string whose split on [@] does not yield
    exactly two parts, that is with no [@] or more than one, gets the
    wrong-format diagnostic and is skipped: text, flag, lines and files stay
    as they are, no lookup is made, nothing is raised and the loop goes on
    with the next reference.  A string with exactly one [@] splits in two
    parts, empty or not, and is looked up. *)
Theorem malformed_reference_is_skipped (w : world) (a : string) :
  (List.length (split at_sign a) = 2 <-> count_char at_sign a = 1) /\
  (count_char at_sign a <> 1 ->
     (forall locals s,
        check_action w (SStr a) locals s = (inr locals, logged s [WarningWrongFormat a])) /\
     (forall rest locals s,
        check_actions w (SStr a :: rest) locals s
        = check_actions w rest locals (logged s [WarningWrongFormat a]))) /\
  (count_char at_sign a = 1 ->
     exists r v, split at_sign a = [r; v] /\ a = (r ++ String at_sign v)%string /\
       forall locals s, exists events,
         log (snd (check_action w (SStr a) locals s))
         = log s ++ GetLatestRelease r :: events).
Proof.
  split; [|split].
  - rewrite split_length. lia.
  - intros Hc. apply (wrong_format_verdict w) in Hc.
    assert (forall locals s, check_action w (SStr a) locals s
                             = (inr locals, logged s [WarningWrongFormat a])) as Hstep
      by (intros; now rewrite check_action_spec, Hc).
    split; [exact Hstep|]. intros rest locals s.
    now rewrite check_actions_cons, Hstep.
  - intros Hc. pose proof (split_length at_sign a) as L. rewrite Hc in L.
    destruct (split at_sign a) as [|r [|v [|x l]]] eqn:Hs; try discriminate L.
    exists r, v. split; [reflexivity|]. split; [now apply split_two|].
    intros locals s. rewrite check_action_spec. unfold verdict_of. rewrite Hs.
    destruct (release_status _ =? 200)%Z; [|eexists; reflexivity].
    destruct (release_json _); [|eexists; reflexivity].
    destruct (String.eqb _ _); eexists; reflexivity.
Qed.

(** ** Reconciling one document *)

Lemma py_eqb_strings (a i : string) : py_eqb (SStr a) (SStr i) = String.eqb a i.
Proof. reflexivity. Qed.

(** The references checked are extracted strings outside the ignore set (or
    scalars that are no strings). *)
Lemma actions_to_check_in (w : world) (data : value) (actions : list scalar) (a : string) :
  actions_to_check w data = inr actions ->
  In (SStr a) actions ->
  In (VStr a) (get_all_actions data) /\ ~ In a (ignore_actions w).
Proof.
  unfold actions_to_check, py_set.
  destruct (set_from (get_all_actions data) []) as [e|set] eqn:E; [discriminate|].
  intros H Hin. injection H as <-.
  apply set_iteration_in in Hin. apply difference_update_in in Hin as [Hset Hig].
  split.
  - destruct (set_from_in _ _ _ _ E Hset) as [[]|H]. exact H.
  - intros Hi. specialize (Hig a Hi). rewrite py_eqb_strings, String.eqb_refl in Hig.
    discriminate.
Qed.

Lemma set_from_exception (items : list value) :
  forall acc e, set_from items acc = inl e -> e = TypeError.
Proof.
  induction items as [|v items IH]; intros acc e H; [discriminate|].
  destruct v as [c| |]; simpl in H; try (now injection H). eauto.
Qed.

Lemma actions_to_check_exception (w : world) (data : value) (e : exn) :
  actions_to_check w data = inl e -> e = TypeError.
Proof.
  unfold actions_to_check, py_set.
  destruct (set_from (get_all_actions data) []) as [e'|set] eqn:E; [|discriminate].
  intros H. injection H as <-. eapply set_from_exception. exact E.
Qed.

Lemma reconcile_raises (w : world) (file_data : string) (s : state) (e : exn) :
  fst (reconcile w file_data s) = inl e -> is_Exception e = true.
Proof.
  unfold reconcile. destruct (yaml_load w file_data) as [data|].
  - unfold bind, lift. destruct (actions_to_check w data) as [e'|actions] eqn:E.
    + simpl. intros H. injection H as <-.
      now rewrite (actions_to_check_exception _ _ _ E).
    + apply check_actions_raises.
  - simpl. intros H. now injection H as <-.
Qed.

(** What reconciling a text leaves behind: files untouched, no write, and
    every lookup made for the repository part of an extracted reference
    that is not in the ignore set. *)
Lemma reconcile_frame (w : world) (file_data : string) (s : state) :
  files (snd (reconcile w file_data s)) = files s /\
  exists events,
    log (snd (reconcile w file_data s)) = log s ++ events /\
    (forall p t, ~ In (FileWrite p t) events) /\
    (forall r, In (GetLatestRelease r) events ->
       exists data a v,
         yaml_load w file_data = Some data /\
         In (VStr a) (get_all_actions data) /\
         ~ In a (ignore_actions w) /\
         split at_sign a = [r; v]).
Proof.
  unfold reconcile. destruct (yaml_load w file_data) as [data|].
  - unfold bind, lift. destruct (actions_to_check w data) as [e'|actions] eqn:E.
    + simpl. split; [reflexivity|]. exists []. rewrite app_nil_r.
      split; [reflexivity|]. split; [intros p t []|intros r []].
    + destruct (check_actions_frame w actions (file_data, false) s)
        as (Hf & events & Hl & Hw & Hg).
      split; [exact Hf|]. exists events. split; [exact Hl|]. split; [exact Hw|].
      intros r Hr. destruct (Hg r Hr) as (a & v & Hin & Hs).
      destruct (actions_to_check_in _ _ _ _ E Hin) as [Hx Hi].
      exists data, a, v. auto.
  - simpl. split; [reflexivity|]. exists []. rewrite app_nil_r.
    split; [reflexivity|]. split; [intros p t []|intros r []].
Qed.

(** A reference string yielded by the extractor and not in the ignore set is
    among the references checked, whenever the set can be built. *)
Lemma actions_to_check_complete (w : world) (data : value) (actions : list scalar) (a : string) :
  actions_to_check w data = inr actions ->
  In (VStr a) (get_all_actions data) ->
  ~ In a (ignore_actions w) ->
  In (SStr a) actions.
Proof.
  unfold actions_to_check, py_set.
  destruct (set_from (get_all_actions data) []) as [e|set] eqn:E; [discriminate|].
  intros H Hin Hi. injection H as <-.
  apply set_iteration_in. apply difference_update_in. split.
  - eapply set_from_has_string; eauto.
  - intros i Hig. rewrite py_eqb_strings. apply String.eqb_neq. intros ->. contradiction.
Qed.

(** The document as a whole: an extracted reference outside the ignore set
    that is outdated sets the flag of the document and puts the line of its
    repository in the set, once, when no reference of the document raises. *)
Lemma reconcile_outdated_reference
    (w : world) (file_data : string) (data : value) (actions : list scalar)
    (a r : string) (rel : release) (s : state) :
  yaml_load w file_data = Some data ->
  actions_to_check w data = inr actions ->
  all_checkable w actions ->
  In (VStr a) (get_all_actions data) ->
  ~ In a (ignore_actions w) ->
  outdated w a r rel ->
  NoDup (pull_request_body_lines s) ->
  exists text' s',
    reconcile w file_data s = (inr (text', true), s') /\
    count_occ string_dec (pull_request_body_lines s')
              (generate_pull_request_body_line r rel) = 1.
Proof.
  intros Hy Ha Hok Hin Hi Ho Hnd. unfold reconcile, bind, lift. rewrite Hy, Ha.
  destruct (check_actions_lines w actions Hok (file_data, false) s Hnd)
    as (t' & f' & s' & E & N & _ & _ & O & _).
  destruct (O a r rel (actions_to_check_complete _ _ _ _ Ha Hin Hi) Ho) as [-> Hline].
  exists t', s'. split; [exact E | now apply nodup_count_one].
Qed.

(** ** C1: the ignore set *)

(** C1, as stated, fails: the ignore set is subtracted from the set of whole
    reference strings, so an entry that is only a repository identifier
    removes nothing.  With ["owner/repo"] ignored, the references
    [owner/repo@v0] and [owner/repo@v1] are both looked up. *)
Lemma ignored_repository_is_still_looked_up :
  In "owner/repo" (ignore_actions (owner_repo_world ["owner/repo"])) /\
  reconcile (owner_repo_world ["owner/repo"]) owner_repo_text fresh
  = (inr (steps_text "owner/repo@v1" "owner/repo@v1", true),
     mkState []
       [generate_pull_request_body_line "owner/repo"
          (mkRelease "2024-01-01T00:00:00Z"
             "https://github.com/owner/repo/releases/tag/v1" "v1" EmptyString)]
       [GetLatestRelease "owner/repo"; EchoFound "owner/repo";
        EchoUpdating "owner/repo@v0" "owner/repo@v1";
        GetLatestRelease "owner/repo"; EchoNoUpdates "owner/repo"]).
Proof. split; [now left | reflexivity]. Qed.

(** C1 (amended): the ignore set is subtracted from the set of extracted
    reference strings before any resolution call, by equality of whole
    strings: a reference string that is in the ignore set is not among the
    references checked, and every release lookup made while reconciling a
    document is made for the repository part of an extracted reference
    string that is not in the ignore set. *)
Theorem ignored_references_are_not_resolved (w : world) (file_data : string) (s : state) :
  (forall data actions a,
     actions_to_check w data = inr actions ->
     In a (ignore_actions w) -> ~ In (SStr a) actions) /\
  exists events,
    log (snd (reconcile w file_data s)) = log s ++ events /\
    forall r, In (GetLatestRelease r) events ->
      exists data a v,
        yaml_load w file_data = Some data /\
        In (VStr a) (get_all_actions data) /\
        ~ In a (ignore_actions w) /\
        split at_sign a = [r; v].
Proof.
  split.
  - intros data actions a E Hi Hin.
    now destruct (actions_to_check_in _ _ _ _ E Hin) as [_ Hn].
  - destruct (reconcile_frame w file_data s) as (_ & events & Hl & _ & Hg).
    exists events. auto.
Qed.

(** ** One workflow file *)

(** [check_workflow], case by case: a path that cannot be opened and a
    reconciliation that raises both end in the skip diagnostic; otherwise
    the file is overwritten exactly when the flag is set. *)
Lemma check_workflow_spec (w : world) (workflow_path : value) (s : state) :
  check_workflow w workflow_path s =
  match workflow_path with
  | VScalar (SStr p) =>
      match read_file (files s) p with
      | Some file_data =>
          match reconcile w file_data (logged s [GroupChecking p]) with
          | (inr (text, true), s') =>
              (inr tt, mkState (write_file (files s') p text)
                               (pull_request_body_lines s')
                               (log s' ++ [FileWrite p text]))
          | (inr (text, false), s') => (inr tt, s')
          | (inl e, s') => (inr tt, logged s' [EchoSkipping workflow_path])
          end
      | None => (inr tt, logged s [EchoSkipping workflow_path])
      end
  | _ => (inr tt, logged s [EchoSkipping workflow_path])
  end.
Proof.
  unfold check_workflow, try_except, bind, open_and_read.
  destruct workflow_path as [[| | |p]| |]; try reflexivity.
  destruct (read_file (files s) p) as [file_data|]; [|reflexivity].
  rewrite emit_logged. cbn [fst snd].
  pose proof (reconcile_raises w file_data (logged s [GroupChecking p])) as Hexn.
  destruct (reconcile w file_data (logged s [GroupChecking p]))
    as [[e|[text [|]]] s']; cbn [fst snd] in *.
  - rewrite (Hexn e eq_refl). reflexivity.
  - reflexivity.
  - reflexivity.
Qed.

Lemma check_workflow_returns (w : world) (workflow_path : value) (s : state) :
  fst (check_workflow w workflow_path s) = inr tt.
Proof.
  rewrite check_workflow_spec.
  destruct workflow_path as [[| | |p]| |]; try reflexivity.
  destruct (read_file (files s) p); [|reflexivity].
  destruct (reconcile w _ _) as [[e|[text [|]]] s']; reflexivity.
Qed.

(** The loop reaches an element that is no string, or raises before. *)
Lemma check_actions_not_a_string (w : world) (actions : list scalar) (c : scalar) :
  In c actions -> verdict_of w c = NotAString ->
  forall locals s, exists e, fst (check_actions w actions locals s) = inl e.
Proof.
  induction actions as [|x rest IH]; intros Hin V locals s; [destruct Hin|].
  rewrite check_actions_cons. destruct Hin as [->|Hin].
  - rewrite check_action_spec, V. now exists AttributeError.
  - destruct (check_action w x locals s) as [[e|locals'] s1]; [now exists e|].
    now apply IH.
Qed.

Lemma py_eqb_refl (c : scalar) : py_eqb c c = true.
Proof.
  destruct c; simpl; auto using Bool.eqb_reflx, Z.eqb_refl, String.eqb_refl.
Qed.

(** A scalar put in a set is represented there by an equal element. *)
Lemma set_from_represents (items : list value) :
  forall acc s c, set_from items acc = inr s ->
    In (VScalar c) items \/ (exists c', In c' acc /\ py_eqb c c' = true) ->
    exists c', In c' s /\ py_eqb c c' = true.
Proof.
  induction items as [|v items IH]; intros acc s c H Hin.
  - injection H as <-. destruct Hin as [[]|Hacc]. exact Hacc.
  - destruct v as [x| |]; try discriminate H. simpl in H.
    apply (IH _ _ _ H). destruct Hin as [[E|Hin]|(c' & Hc' & Heq)].
    + injection E as ->. right. unfold set_add.
      destruct (existsb (py_eqb c) acc) eqn:Ex.
      * apply existsb_exists in Ex as (y & Hy & Hyeq). eauto.
      * exists c. split; [apply in_or_app; right; now left | apply py_eqb_refl].
    + now left.
    + right. exists c'. split; [now apply set_add_keeps | exact Heq].
Qed.

Lemma py_eqb_not_string (c c' : scalar) :
  py_eqb c c' = true -> (forall a, c <> SStr a) -> forall a, c' <> SStr a.
Proof.
  intros H Hc a ->. destruct c; try discriminate H. now destruct (Hc s).
Qed.

(** A document in which some [uses] value is no string cannot be
    reconciled: building the set or taking [split] raises. *)
Lemma reconcile_non_string (w : world) (file_data : string) (data v : value) (s : state) :
  yaml_load w file_data = Some data ->
  In v (get_all_actions data) ->
  (forall a, v <> VStr a) ->
  exists e, fst (reconcile w file_data s) = inl e.
Proof.
  intros Hy Hin Hv. unfold reconcile. rewrite Hy. unfold bind, lift, actions_to_check, py_set.
  destruct (set_from (get_all_actions data) []) as [e|set] eqn:E; [now exists e|].
  destruct v as [c|items|entries].
  - destruct (set_from_represents _ _ _ c E (or_introl Hin)) as (c' & Hc' & Heq).
    assert (forall a, c' <> SStr a) as Hns.
    { apply (py_eqb_not_string c c' Heq). intros a ->. now apply (Hv a). }
    apply (check_actions_not_a_string w _ c').
    + apply set_iteration_in. apply difference_update_in. split; [exact Hc'|].
      intros i _. destruct c'; try reflexivity. now destruct (Hns s0).
    + destruct c'; try reflexivity. now destruct (Hns s0).
  - rewrite (set_from_raises _ []) in E; [discriminate|].
    exists (VList items). split; [exact Hin | discriminate].
  - rewrite (set_from_raises _ []) in E; [discriminate|].
    exists (VDict entries). split; [exact Hin | discriminate].
Qed.

(** ** C5: a [uses] value that is no string *)

(** C5, as stated, fails: the value is not treated as a malformed reference.
    With [uses: 5] next to [uses: a/b@v1], whichever of the two the set
    yields first, no wrong-format diagnostic is emitted, the document is
    skipped as a whole and the outdated [a/b@v1] is not rewritten in the
    file; when [5] comes first the other reference is not even looked up. *)
Lemma number_under_uses_skips_the_document :
  get_all_actions (steps_value (VScalar (SInt 5)) (VStr "a/b@v1"))
    = [VScalar (SInt 5); VStr "a/b@v1"] /\
  check_workflow (number_world [SInt 5; SStr "a/b@v1"]) (VStr "ci.yml")
    (mkState [("ci.yml", number_text)] [] [])
  = (inr tt,
     mkState [("ci.yml", number_text)] []
       [GroupChecking "ci.yml"; EchoSkipping (VStr "ci.yml")]) /\
  check_workflow (number_world [SStr "a/b@v1"; SInt 5]) (VStr "ci.yml")
    (mkState [("ci.yml", number_text)] [] [])
  = (inr tt,
     mkState [("ci.yml", number_text)]
       [generate_pull_request_body_line "a/b"
          (mkRelease "2024-01-01T00:00:00Z"
             "https://github.com/a/b/releases/tag/v2" "v2" EmptyString)]
       [GroupChecking "ci.yml"; GetLatestRelease "a/b"; EchoFound "a/b";
        EchoUpdating "a/b@v1" "a/b@v2"; EchoSkipping (VStr "ci.yml")]).
Proof. repeat split. Qed.

(** C5 (amended): a value under [uses] that is no string is yielded by the
    extractor as it is, and is not handled as a malformed reference: the
    reconciliation of the document raises (when the set is built, for a
    mapping or a sequence; at [split], for any other value), the handler of
    the document logs that the file is skipped, and the file is not written.
    The run goes on with the next document. *)
Theorem non_string_reference_skips_document
    (w : world) (p file_data : string) (data v : value) (s : state) :
  read_file (files s) p = Some file_data ->
  yaml_load w file_data = Some data ->
  In v (get_all_actions data) ->
  (forall a, v <> VStr a) ->
  fst (check_workflow w (VStr p) s) = inr tt /\
  files (snd (check_workflow w (VStr p) s)) = files s /\
  exists events,
    log (snd (check_workflow w (VStr p) s))
      = log s ++ GroupChecking p :: events ++ [EchoSkipping (VStr p)] /\
    (forall p' t, ~ In (FileWrite p' t) events).
Proof.
  intros Hr Hy Hin Hv. split; [apply check_workflow_returns|].
  rewrite check_workflow_spec. unfold VStr. rewrite Hr.
  destruct (reconcile_non_string w file_data data v (logged s [GroupChecking p]) Hy Hin Hv)
    as [e He].
  destruct (reconcile_frame w file_data (logged s [GroupChecking p]))
    as (Hf & events & Hl & Hw & _).
  destruct (reconcile w file_data (logged s [GroupChecking p])) as [[e'|res] s'];
    [|discriminate He].
  cbn [fst snd] in *. split; [exact Hf|].
  exists events. split.
  - unfold logged in *. cbn [log] in *. rewrite Hl, <- !app_assoc. reflexivity.
  - exact Hw.
Qed.

(** ** C8: when a workflow file is written *)

(** The flag is set by the loop only through an outdated reference. *)
Lemma check_actions_flag (w : world) (actions : list scalar) :
  forall locals s text,
    fst (check_actions w actions locals s) = inr (text, true) ->
    snd locals = true \/
    exists a r rel, In (SStr a) actions /\ outdated w a r rel.
Proof.
  induction actions as [|c rest IH]; intros locals s text H.
  - simpl in H. injection H as H. left. now rewrite H.
  - rewrite check_actions_cons, check_action_spec in H.
    assert (forall s1, fst (check_actions w rest locals s1) = inr (text, true) ->
              snd locals = true \/
              exists a r rel, In (SStr a) (c :: rest) /\ outdated w a r rel) as Hsame.
    { intros s1 H1. destruct (IH _ _ _ H1) as [Hl|(a & r & rel & Hin & Ho)]; [now left|].
      right. exists a, r, rel. split; [now right | exact Ho]. }
    destruct (verdict_of w c) as [|a'|r'|r' st|r'|a' r' rel] eqn:V;
      try discriminate H; try (now apply (Hsame _ H)).
    destruct (verdict_outdated_inv _ _ _ _ _ V) as [-> Ho].
    right. exists a', r', rel. split; [now left | exact Ho].
Qed.

Lemma reconcile_flag (w : world) (file_data text : string) (s : state) :
  fst (reconcile w file_data s) = inr (text, true) ->
  exists data a r rel,
    yaml_load w file_data = Some data /\
    In (VStr a) (get_all_actions data) /\
    ~ In a (ignore_actions w) /\
    outdated w a r rel.
Proof.
  unfold reconcile. destruct (yaml_load w file_data) as [data|]; [|discriminate].
  unfold bind, lift. destruct (actions_to_check w data) as [e|actions] eqn:E; [discriminate|].
  intros H. destruct (check_actions_flag _ _ _ _ _ H) as [Hf|(a & r & rel & Hin & Ho)];
    [discriminate Hf|].
  destruct (actions_to_check_in _ _ _ _ E Hin) as [Hx Hi].
  exists data, a, r, rel. auto.
Qed.

(** C8, as stated, fails: the write is decided by the flag, not by comparing
    texts.  The reference [a/b@v1] is written with an escape in the YAML
    text, so the substitution finds nothing to replace; the flag is set all
    the same and the file is overwritten with the text it already had. *)
Lemma file_overwritten_with_same_text :
  occurs "a/b@v1" escaped_text = false /\
  check_workflow escaped_world (VStr "ci.yml") (mkState [("ci.yml", escaped_text)] [] [])
  = (inr tt,
     mkState [("ci.yml", escaped_text)]
       [generate_pull_request_body_line "a/b"
          (mkRelease "2024-01-01T00:00:00Z"
             "https://github.com/a/b/releases/tag/v2" "v2" EmptyString)]
       [GroupChecking "ci.yml"; GetLatestRelease "a/b"; EchoFound "a/b";
        EchoUpdating "a/b@v1" "a/b@v2"; FileWrite "ci.yml" escaped_text]).
Proof. split; reflexivity. Qed.

(** Either nothing is written and the files stay as they were, or the
    reconciliation returned with the flag set and its text is written at the
    path of the document. *)
Lemma check_workflow_writes (w : world) (workflow_path : value) (s : state) :
  exists events,
    log (snd (check_workflow w workflow_path s)) = log s ++ events /\
    (((forall q t, ~ In (FileWrite q t) events) /\
      files (snd (check_workflow w workflow_path s)) = files s)
     \/
     exists p text file_data,
       workflow_path = VStr p /\
       read_file (files s) p = Some file_data /\
       fst (reconcile w file_data (logged s [GroupChecking p])) = inr (text, true) /\
       files (snd (check_workflow w workflow_path s)) = write_file (files s) p text /\
       In (FileWrite p text) events /\
       forall q t, In (FileWrite q t) events -> q = p /\ t = text).
Proof.
  assert (forall v, forall q t, ~ In (FileWrite q t) [EchoSkipping v]) as Hskip
    by (intros v q t [H|[]]; discriminate H).
  rewrite check_workflow_spec.
  destruct workflow_path as [[| | |p]| |];
    try (eexists; split; [reflexivity|]; left; split; [apply Hskip | reflexivity]).
  destruct (read_file (files s) p) as [file_data|] eqn:Hr;
    [|eexists; split; [reflexivity|]; left; split; [apply Hskip | reflexivity]].
  destruct (reconcile_frame w file_data (logged s [GroupChecking p]))
    as (Hf & events & Hl & Hw & _).
  destruct (reconcile w file_data (logged s [GroupChecking p])) as [[e|[text [|]]] s'] eqn:E;
    cbn [fst snd files log logged] in *.
  - exists (GroupChecking p :: events ++ [EchoSkipping (VScalar (SStr p))]).
    split; [rewrite Hl, <- !app_assoc; reflexivity|]. left. split; [|exact Hf].
    intros q t [H|H]; [discriminate H|].
    apply in_app_or in H as [H|[H|[]]]; [now apply (Hw q t) | discriminate H].
  - exists (GroupChecking p :: events ++ [FileWrite p text]).
    split; [rewrite Hl, <- !app_assoc; reflexivity|]. right.
    exists p, text, file_data. split; [reflexivity|]. split; [exact Hr|].
    split; [now rewrite E|]. split; [now rewrite Hf|]. split.
    + right. apply in_or_app. right. now left.
    + intros q t [H|H]; [discriminate H|].
      apply in_app_or in H as [H|[H|[]]]; [now destruct (Hw q t)|].
      injection H as <- <-. now split.
  - exists (GroupChecking p :: events).
    split; [rewrite Hl, <- !app_assoc; reflexivity|]. left. split; [|exact Hf].
    intros q t [H|H]; [discriminate H | now apply (Hw q t)].
Qed.

(** C8 (amended): a workflow file is written back only if reconciliation set
    the flag, that is only if some extracted reference outside the ignore
    set is outdated; the write stores the reconciled text at the path of the
    document.  If no reference is outdated, nothing is written and the files
    are left as they were.  (The text written need not differ from the
    original.) *)
Theorem workflow_written_only_when_outdated (w : world) (workflow_path : value) (s : state) :
  exists events,
    log (snd (check_workflow w workflow_path s)) = log s ++ events /\
    (forall p text, In (FileWrite p text) events ->
       workflow_path = VStr p /\
       files (snd (check_workflow w workflow_path s)) = write_file (files s) p text /\
       exists file_data data a r rel,
         read_file (files s) p = Some file_data /\
         yaml_load w file_data = Some data /\
         In (VStr a) (get_all_actions data) /\
         ~ In a (ignore_actions w) /\
         outdated w a r rel) /\
    ((forall p text, ~ In (FileWrite p text) events) ->
       files (snd (check_workflow w workflow_path s)) = files s) /\
    ((forall p file_data data a r rel,
        workflow_path = VStr p ->
        read_file (files s) p = Some file_data ->
        yaml_load w file_data = Some data ->
        In (VStr a) (get_all_actions data) ->
        ~ In a (ignore_actions w) ->
        ~ outdated w a r rel) ->
     (forall p text, ~ In (FileWrite p text) events) /\
     files (snd (check_workflow w workflow_path s)) = files s).
Proof.
  destruct (check_workflow_writes w workflow_path s)
    as (events & Hl & [[Hn Hf]|(p & text & fd & Hp & Hr & Hrec & Hf & Hin & Honly)]);
    exists events; (split; [exact Hl|]).
  - split; [intros q t Hq; now destruct (Hn q t Hq)|].
    split; [intros _; exact Hf|]. intros _. now split.
  - destruct (reconcile_flag _ _ _ _ Hrec) as (data & a & r & rel & Hy & Hx & Hi & Ho).
    split; [|split].
    + intros q t Hq. destruct (Honly q t Hq) as [-> ->].
      split; [exact Hp|]. split; [exact Hf|].
      exists fd, data, a, r, rel. auto.
    + intros Hn. now destruct (Hn p text Hin).
    + intros Hno. destruct (Hno p fd data a r rel Hp Hr Hy Hx Hi Ho).
Qed.

(** ** Listing the workflows *)

Lemma getitem_field (v : value) (name : string) (x : value) :
  getitem v name = inr x <-> has_field v name x.
Proof.
  unfold getitem, has_field. split.
  - destruct v as [c|items|entries]; try discriminate.
    destruct (find _ entries) as [kv|] eqn:F; [|discriminate].
    intros H. injection H as <-. now exists entries, kv.
  - intros (entries & kv & -> & F & <-). now rewrite F.
Qed.

Lemma getitem_raises (v : value) (name : string) (e : exn) :
  getitem v name = inl e -> is_Exception e = true.
Proof.
  unfold getitem. destruct v as [c|items|entries]; try (intros H; now injection H as <-).
  destruct (find _ entries); [discriminate|]. intros H. now injection H as <-.
Qed.

Lemma comprehension_paths (items paths : list value) :
  comprehension (fun workflow => getitem workflow "path") items = inr paths <->
  Forall2 (fun workflow path => has_field workflow "path" path) items paths.
Proof.
  revert paths. induction items as [|x items IH]; intros paths; simpl.
  - split.
    + intros H. injection H as <-. constructor.
    + intros H. inversion H. reflexivity.
  - split.
    + destruct (getitem x "path") as [e|y] eqn:G; [discriminate|].
      destruct (comprehension _ items) as [e|ys] eqn:C; [discriminate|].
      intros H. injection H as <-. constructor; [now apply getitem_field | now apply IH].
    + intros H. inversion H as [|x' y l l' Hxy Hrest]; subst.
      apply getitem_field in Hxy. rewrite Hxy.
      apply IH in Hrest. now rewrite Hrest.
Qed.

Lemma comprehension_raises (items : list value) (e : exn) :
  comprehension (fun workflow => getitem workflow "path") items = inl e ->
  is_Exception e = true.
Proof.
  induction items as [|x items IH]; simpl; [discriminate|].
  destruct (getitem x "path") as [e'|y] eqn:G.
  - intros H. injection H as <-. eapply getitem_raises. exact G.
  - destruct (comprehension _ items) as [e'|ys]; [|discriminate].
    intros H. injection H as <-. now apply IH.
Qed.

(** Subscripting the keys of a mapping or the characters of a string with
    a string raises at the first of them. *)
Lemma comprehension_scalars (cs : list scalar) (paths : list value) :
  comprehension (fun workflow => getitem workflow "path") (map VScalar cs) = inr paths ->
  cs = [] /\ paths = [].
Proof.
  destruct cs as [|c cs]; simpl; [|discriminate].
  intros H. injection H as <-. now split.
Qed.

Lemma characters_scalars (s : string) :
  characters s = map VScalar (map (fun c => SStr (String c EmptyString))
                                  (list_ascii_of_string s)).
Proof. induction s as [|c s IH]; simpl; [reflexivity | now rewrite IH]. Qed.

Lemma workflow_paths_of_raises (body : value) (e : exn) :
  workflow_paths_of body = inl e -> is_Exception e = true.
Proof.
  unfold workflow_paths_of.
  destruct (getitem body "workflows") as [e'|workflows] eqn:G.
  - intros H. injection H as <-. eapply getitem_raises. exact G.
  - destruct (iterate workflows) as [e'|items] eqn:I.
    + intros H. injection H as <-.
      destruct workflows as [[| | |x]| |]; try discriminate I; now injection I as <-.
    + apply comprehension_raises.
Qed.

(** When the comprehension of line 195 returns: on the shape of a listing,
    and on a [workflows] member that is an empty mapping or an empty string. *)
Lemma workflow_paths_of_returns (body : value) (paths : list value) :
  workflow_paths_of body = inr paths <->
  listing_shape body paths \/
  (paths = [] /\ (has_field body "workflows" (VDict [])
                  \/ has_field body "workflows" (VStr EmptyString))).
Proof.
  unfold workflow_paths_of, listing_shape. split.
  - destruct (getitem body "workflows") as [e'|workflows] eqn:G; [discriminate|].
    apply getitem_field in G.
    destruct workflows as [[| | |x]|items|entries]; try discriminate; simpl.
    + rewrite characters_scalars. intros H.
      apply comprehension_scalars in H as [Hx ->]. right. split; [reflexivity|]. right.
      destruct x; [exact G | discriminate Hx].
    + intros H. left. exists items. split; [exact G | now apply comprehension_paths].
    + rewrite <- (map_map fst VScalar). intros H.
      apply comprehension_scalars in H as [Hx ->]. right. split; [reflexivity|]. left.
      destruct entries; [exact G | discriminate Hx].
  - intros [(workflows & G & F)|[-> [G|G]]]; apply getitem_field in G; rewrite G; simpl.
    + now apply comprehension_paths.
    + reflexivity.
    + reflexivity.
Qed.

Lemma get_workflow_paths_spec (w : world) (s : state) :
  get_workflow_paths w s =
  if (status_code (workflows_response w) =? 200)%Z then
    match json (workflows_response w) with
    | None => (inl JSONDecodeError, logged s [GetWorkflows])
    | Some body => (workflow_paths_of body, logged s [GetWorkflows])
    end
  else
    (inl (SystemExit 1),
     logged s [GetWorkflows; ErrorWorkflows (status_code (workflows_response w))]).
Proof.
  unfold get_workflow_paths, bind. rewrite emit_logged.
  destruct (status_code (workflows_response w) =? 200)%Z.
  - destruct (json (workflows_response w)); reflexivity.
  - rewrite emit_logged, logged_logged. reflexivity.
Qed.

(** ** C10: the workflow listing *)

(** C10, as stated, fails: a status-200 body can lack the shape and still
    not raise.  With [{"workflows": {}}] the comprehension iterates over the
    keys of an empty mapping and returns the empty list; [run] then takes
    the no-workflow exit with code 0. *)
Lemma listing_without_shape_returns :
  status_code (workflows_response empty_mapping_world) = 200%Z /\
  (forall paths, ~ listing_shape (VDict [(SStr "workflows", VDict [])]) paths) /\
  get_workflow_paths empty_mapping_world fresh = (inr [], mkState [] [] [GetWorkflows]) /\
  run empty_mapping_world fresh
    = (inl (SystemExit 0), mkState [] [] [GetWorkflows; WarningNoWorkflow]).
Proof.
  split; [reflexivity|]. split; [|split; reflexivity].
  intros paths (workflows & (entries & kv & E & F & Hkv) & _).
  injection E as <-. simpl in F. injection F as <-. discriminate Hkv.
Qed.

(** C10 (amended): for every status other than 200 the listing emits the
    error diagnostic and exits with code 1.  For a status-200 response whose
    body has the shape of a listing it returns exactly the [path] fields, in
    order.  For a status-200 response it returns without raising only on
    that shape, or, with the empty list, when the [workflows] member is an
    empty mapping or an empty string; every other status-200 response (no
    JSON, no mapping, no [workflows] member, a member that cannot be
    iterated, an entry without [path]) raises an error that is not a
    [SystemExit] and that [run] does not handle, with no diagnostic. *)
Theorem get_workflow_paths_cases (w : world) (s : state) :
  (status_code (workflows_response w) <> 200%Z ->
     get_workflow_paths w s
     = (inl (SystemExit 1),
        logged s [GetWorkflows; ErrorWorkflows (status_code (workflows_response w))])) /\
  (status_code (workflows_response w) = 200%Z ->
     (forall body paths,
        json (workflows_response w) = Some body -> listing_shape body paths ->
        get_workflow_paths w s = (inr paths, logged s [GetWorkflows])) /\
     (forall paths,
        fst (get_workflow_paths w s) = inr paths ->
        exists body,
          json (workflows_response w) = Some body /\
          (listing_shape body paths \/
           (paths = [] /\ (has_field body "workflows" (VDict [])
                           \/ has_field body "workflows" (VStr EmptyString))))) /\
     (forall e,
        fst (get_workflow_paths w s) = inl e ->
        is_Exception e = true /\
        snd (get_workflow_paths w s) = logged s [GetWorkflows] /\
        run w s = (inl e, logged s [GetWorkflows]) /\
        termination_of (fst (run w s)) = Unhandled e)).
Proof.
  rewrite get_workflow_paths_spec. split.
  - intros H. apply Z.eqb_neq in H. now rewrite H.
  - intros H. unfold run, bind. rewrite get_workflow_paths_spec.
    apply Z.eqb_eq in H. rewrite H. split; [|split].
    + intros body paths -> Hshape.
      assert (workflow_paths_of body = inr paths) as ->
        by (apply workflow_paths_of_returns; now left).
      reflexivity.
    + intros paths. destruct (json (workflows_response w)) as [body|]; [|discriminate].
      cbn [fst]. intros Hp. exists body. split; [reflexivity|].
      now apply workflow_paths_of_returns.
    + intros e. destruct (json (workflows_response w)) as [body|]; cbn [fst snd].
      * intros He. rewrite He. pose proof (workflow_paths_of_raises _ _ He) as Hx.
        repeat split; auto. cbn [fst]. destruct e; try reflexivity. discriminate Hx.
      * intros He. injection He as <-. repeat split.
Qed.

(** ** C7: how a run ends *)

Lemma check_workflows_returns (w : world) (workflow_paths : list value) :
  forall s, fst (check_workflows w workflow_paths s) = inr tt.
Proof.
  induction workflow_paths as [|x rest IH]; intros s; [reflexivity|].
  simpl. unfold bind. pose proof (check_workflow_returns w x s) as H.
  destruct (check_workflow w x s) as [[e|[]] s1]; [discriminate H | apply IH].
Qed.

(** [run], case by case. *)
Lemma run_spec (w : world) (s : state) :
  run w s =
  match fst (get_workflow_paths w s) with
  | inl e => (inl e, snd (get_workflow_paths w s))
  | inr [] => (inl (SystemExit 0), logged (cleared s) [GetWorkflows; WarningNoWorkflow])
  | inr (x :: rest) =>
      let s' := after_workflows w (x :: rest) s in
      if git_has_changes w (files s') then
        if skip_pull_request w then
          (inl (SystemExit 1),
           logged s' [AppendJobSummary (pull_request_body w (pull_request_body_lines s'));
                      AddGitDiffToJobSummary; ErrorSkippingPullRequest])
        else
          (inr tt,
           logged s' [AppendJobSummary (pull_request_body w (pull_request_body_lines s'));
                      CreateNewGitBranch (time w); GitCommitChanges (time w);
                      CreatePullRequest (time w)
                        (pull_request_body w (pull_request_body_lines s'))])
      else (inr tt, logged s' [NoticeUpToDate])
  end.
Proof.
  unfold run, bind, after_workflows, ignore_echo.
  pose proof (get_workflow_paths_spec w s) as G.
  destruct (get_workflow_paths w s) as [[e|paths] s0]; cbn [fst snd]; [reflexivity|].
  assert (s0 = logged s [GetWorkflows]) as ->.
  { destruct (status_code (workflows_response w) =? 200)%Z; [|discriminate G].
    destruct (json (workflows_response w)); [|discriminate G]. now injection G. }
  change (new_lines (logged s [GetWorkflows]))
    with (inr (A:=exn) tt, logged (cleared s) [GetWorkflows]).
  cbv iota beta.
  destruct paths as [|x rest]; [rewrite emit_logged, logged_logged; reflexivity|].
  assert ((match ignore_actions w with
           | [] => ret tt
           | _ :: _ => emit (EchoIgnored (ignore_actions w))
           end) (logged (cleared s) [GetWorkflows])
          = (inr tt, logged (cleared s)
                       (GetWorkflows ::
                          match ignore_actions w with
                          | [] => []
                          | _ :: _ => [EchoIgnored (ignore_actions w)]
                          end))) as ->.
  { destruct (ignore_actions w); [reflexivity|]. now rewrite emit_logged, logged_logged. }
  pose proof (check_workflows_returns w (x :: rest)
                (logged (cleared s)
                   (GetWorkflows :: match ignore_actions w with
                                    | [] => []
                                    | _ :: _ => [EchoIgnored (ignore_actions w)]
                                    end))) as R.
  destruct (check_workflows w (x :: rest) _) as [[e|[]] s']; [discriminate R|].
  cbn [fst snd]. destruct (git_has_changes w (files s')); [|reflexivity].
  rewrite emit_logged. destruct (skip_pull_request w); cbn [negb].
  - rewrite !emit_logged, !logged_logged. reflexivity.
  - rewrite !emit_logged, !logged_logged. reflexivity.
Qed.




(** ** C3 and C9: one reference inside another *)

Lemma set_iteration_two {A : Type} (h : A -> nat) (x y : A) :
  set_iteration h [x; y] = if (h x <=? h y)%nat then [x; y] else [y; x].
Proof. reflexivity. Qed.

(** With the two references of [prefix_text], in either order: [a/b@v1] is
    replaced by [a/b@v1.1] everywhere, also inside [a/b@v1.1]. *)
Lemma reconcile_prefix_text (h : scalar -> nat) (s : state) :
  fst (reconcile (prefix_world h) prefix_text s) = inr (prefix_text_once, true).
Proof.
  unfold reconcile.
  change (yaml_load (prefix_world h) prefix_text)
    with (Some (steps_value (VStr "a/b@v1") (VStr "a/b@v1.1"))).
  unfold bind, lift, actions_to_check.
  change (py_set (get_all_actions (steps_value (VStr "a/b@v1") (VStr "a/b@v1.1"))))
    with (inr (A:=exn) [SStr "a/b@v1"; SStr "a/b@v1.1"]).
  cbv iota beta.
  change (difference_update [SStr "a/b@v1"; SStr "a/b@v1.1"]
            (ignore_actions (prefix_world h)))
    with [SStr "a/b@v1"; SStr "a/b@v1.1"].
  rewrite set_iteration_two.
  destruct (py_hash (prefix_world h) (SStr "a/b@v1")
            <=? py_hash (prefix_world h) (SStr "a/b@v1.1"))%nat;
    vm_compute; reflexivity.
Qed.

Lemma reconcile_prefix_text_once (h : scalar -> nat) (s : state) :
  fst (reconcile (prefix_world h) prefix_text_once s) = inr (prefix_text_twice, true).
Proof.
  unfold reconcile.
  change (yaml_load (prefix_world h) prefix_text_once)
    with (Some (steps_value (VStr "a/b@v1.1") (VStr "a/b@v1.1.1"))).
  unfold bind, lift, actions_to_check.
  change (py_set (get_all_actions (steps_value (VStr "a/b@v1.1") (VStr "a/b@v1.1.1"))))
    with (inr (A:=exn) [SStr "a/b@v1.1"; SStr "a/b@v1.1.1"]).
  cbv iota beta.
  change (difference_update [SStr "a/b@v1.1"; SStr "a/b@v1.1.1"]
            (ignore_actions (prefix_world h)))
    with [SStr "a/b@v1.1"; SStr "a/b@v1.1.1"].
  rewrite set_iteration_two.
  destruct (py_hash (prefix_world h) (SStr "a/b@v1.1")
            <=? py_hash (prefix_world h) (SStr "a/b@v1.1.1"))%nat;
    vm_compute; reflexivity.
Qed.

Lemma check_workflow_flag_set (w : world) (p file_data text : string)
    (lines : list string) (events : list event) :
  (forall s, fst (reconcile w file_data s) = inr (text, true)) ->
  files (snd (check_workflow w (VStr p) (mkState [(p, file_data)] lines events)))
  = [(p, text)].
Proof.
  intros H. rewrite check_workflow_spec. unfold VStr. cbn [read_file files].
  rewrite String.eqb_refl.
  specialize (H (logged (mkState [(p, file_data)] lines events) [GroupChecking p])).
  destruct (reconcile_frame w file_data
              (logged (mkState [(p, file_data)] lines events) [GroupChecking p]))
    as (Hf & _).
  destruct (reconcile w file_data _) as [[e|[text' flag]] s']; [discriminate H|].
  cbn [fst snd] in *. injection H as -> ->. cbn [snd files]. rewrite Hf.
  cbn [logged files write_file]. now rewrite String.eqb_refl.
Qed.

(** C3 at its failing input: the workflow uses [a/b@v1] and [a/b@v1.1], and
    the latest release of [a/b] is [v1.1].  The reference [a/b@v1.1] pins
    the latest tag and is found up to date; yet, for every hash order, the
    file is rewritten so that it reads [a/b@v1.1.1], and a second run with no
    upstream change rewrites it again, to another text. *)
Theorem up_to_date_reference_is_rewritten (h : scalar -> nat) :
  verdict_of (prefix_world h) (SStr "a/b@v1.1") = UpToDate "a/b" /\
  files (snd (check_workflow (prefix_world h) (VStr "ci.yml")
                (mkState [("ci.yml", prefix_text)] [] [])))
  = [("ci.yml", steps_text "a/b@v1.1" "a/b@v1.1.1")] /\
  files (snd (check_workflow (prefix_world h) (VStr "ci.yml")
                (mkState [("ci.yml", steps_text "a/b@v1.1" "a/b@v1.1.1")] [] [])))
  = [("ci.yml", steps_text "a/b@v1.1" "a/b@v1.1")] /\
  steps_text "a/b@v1.1" "a/b@v1.1.1" <> steps_text "a/b@v1.1" "a/b@v1.1".
Proof.
  split; [reflexivity|]. split; [|split].
  - apply check_workflow_flag_set. apply reconcile_prefix_text.
  - apply (check_workflow_flag_set (prefix_world h) "ci.yml" prefix_text_once).
    apply reconcile_prefix_text_once.
  - discriminate.
Qed.

(** C9 at its failing input: the workflow uses [a/b@v1] and [a/b@v10], and
    the latest release of [a/b] is [v2].  Two worlds that differ only in the
    hash order of the set end with different texts: when [a/b@v1] comes
    first its substitution also hits [a/b@v10], which becomes [a/b@v20]. *)
Theorem outcome_depends_on_set_order :
  reconcile (overlap_world (rank [SStr "a/b@v1"; SStr "a/b@v10"])) overlap_text fresh
  = (inr (steps_text "a/b@v2" "a/b@v20", true),
     mkState []
       [generate_pull_request_body_line "a/b"
          (mkRelease "2024-01-01T00:00:00Z"
             "https://github.com/a/b/releases/tag/v2" "v2" EmptyString)]
       [GetLatestRelease "a/b"; EchoFound "a/b"; EchoUpdating "a/b@v1" "a/b@v2";
        GetLatestRelease "a/b"; EchoFound "a/b"; EchoUpdating "a/b@v10" "a/b@v2"]) /\
  reconcile (overlap_world (rank [SStr "a/b@v10"; SStr "a/b@v1"])) overlap_text fresh
  = (inr (steps_text "a/b@v2" "a/b@v2", true),
     mkState []
       [generate_pull_request_body_line "a/b"
          (mkRelease "2024-01-01T00:00:00Z"
             "https://github.com/a/b/releases/tag/v2" "v2" EmptyString)]
       [GetLatestRelease "a/b"; EchoFound "a/b"; EchoUpdating "a/b@v10" "a/b@v2";
        GetLatestRelease "a/b"; EchoFound "a/b"; EchoUpdating "a/b@v1" "a/b@v2"]) /\
  steps_text "a/b@v2" "a/b@v20" <> steps_text "a/b@v2" "a/b@v2".
Proof. split; [reflexivity|]. split; [reflexivity | discriminate]. Qed.

(** X14: what does not depend on the order: for two orders of the same
    references, none of which raises, the flag is the same and the sets of
    lines have the same elements. *)
Lemma flag_and_lines_independent_of_order
    (w : world) (actions1 actions2 : list scalar) (text : string) (s : state) :
  Permutation actions1 actions2 ->
  all_checkable w actions1 ->
  NoDup (pull_request_body_lines s) ->
  exists text1 text2 flag s1 s2,
    check_actions w actions1 (text, false) s = (inr (text1, flag), s1) /\
    check_actions w actions2 (text, false) s = (inr (text2, flag), s2) /\
    forall line, In line (pull_request_body_lines s1) <-> In line (pull_request_body_lines s2).
Proof.
  intros Hp Hok1 Hnd.
  assert (all_checkable w actions2) as Hok2
    by (unfold all_checkable in *; now rewrite <- Hp).
  destruct (check_actions_lines w actions1 Hok1 (text, false) s Hnd)
    as (t1 & f1 & s1 & E1 & _ & _ & K1 & O1 & N1).
  destruct (check_actions_lines w actions2 Hok2 (text, false) s Hnd)
    as (t2 & f2 & s2 & E2 & _ & _ & K2 & O2 & N2).
  assert (f1 = f2) as <-.
  { destruct f1, f2; try reflexivity.
    - assert (fst (check_actions w actions1 (text, false) s) = inr (t1, true)) as H
        by now rewrite E1.
      destruct (check_actions_flag _ _ _ _ _ H) as [Hf|(a & r & rel & Hin & Ho)];
        [discriminate Hf|].
      symmetry. apply (O2 a r rel); [|exact Ho]. now apply (Permutation_in _ Hp).
    - assert (fst (check_actions w actions2 (text, false) s) = inr (t2, true)) as H
        by now rewrite E2.
      destruct (check_actions_flag _ _ _ _ _ H) as [Hf|(a & r & rel & Hin & Ho)];
        [discriminate Hf|].
      apply (O1 a r rel); [|exact Ho]. now apply (Permutation_in _ (Permutation_sym Hp)). }
  exists t1, t2, f1, s1, s2. split; [exact E1|]. split; [exact E2|].
  intros line. split; intros Hin.
  - destruct (N1 line Hin) as [Hold|(a & r & rel & Hin' & Ho & ->)]; [now apply K2|].
    apply (O2 a r rel); [|exact Ho]. now apply (Permutation_in _ Hp).
  - destruct (N2 line Hin) as [Hold|(a & r & rel & Hin' & Ho & ->)]; [now apply K1|].
    apply (O1 a r rel); [|exact Ho]. now apply (Permutation_in _ (Permutation_sym Hp)).
Qed.

(** ** The scenarios of the specification *)

(** One workflow on [actions/checkout@v3], latest release [v4]: the file is
    rewritten, a branch is created, a pull request is opened, exit code 0. *)
Example scenario_update_and_pull_request :
  files (snd (run checkout_world (mkState [("ci.yml", checkout_text)] [] [])))
    = [("ci.yml", steps_text "actions/checkout@v4" "actions/checkout@v4")] /\
  termination_of (fst (run checkout_world (mkState [("ci.yml", checkout_text)] [] [])))
    = Exit 0 /\
  In (CreateNewGitBranch 1700000000)
     (log (snd (run checkout_world (mkState [("ci.yml", checkout_text)] [] [])))).
Proof.
  split; [reflexivity|]. split; [reflexivity|].
  vm_compute. repeat (first [left; reflexivity | right]).
Qed.

(** Everything on the latest tag: no write, no branch, notice, exit code 0. *)
Example scenario_up_to_date :
  run (sample_world [] false [("actions/checkout", "v3")]
         [(checkout_text,
           steps_value (VStr "actions/checkout@v3") (VStr "actions/checkout@v3"))]
         (rank []) [("ci.yml", checkout_text)])
      (mkState [("ci.yml", checkout_text)] [] [])
  = (inr tt,
     mkState [("ci.yml", checkout_text)] []
       [GetWorkflows; GroupChecking "ci.yml"; GetLatestRelease "actions/checkout";
        EchoNoUpdates "actions/checkout"; NoticeUpToDate]).
Proof. reflexivity. Qed.

(** Changes with pull requests skipped: no pull request, exit code 1. *)
Example scenario_skip_pull_request :
  termination_of
    (fst (run (sample_world [] true [("actions/checkout", "v4")]
                 [(checkout_text,
                   steps_value (VStr "actions/checkout@v3") (VStr "actions/checkout@v3"))]
                 (rank []) [("ci.yml", checkout_text)])
              (mkState [("ci.yml", checkout_text)] [] [])))
  = Exit 1.
Proof. reflexivity. Qed.

(** The listing answers 500: exit code 1, nothing processed. *)
Example scenario_listing_fails :
  run (mkWorld [] false (mkResponse 500 None) (sample_releases []) (sample_parser [])
         (rank []) (differs_from []) 0)
      (mkState [("ci.yml", checkout_text)] [] [])
  = (inl (SystemExit 1),
     mkState [("ci.yml", checkout_text)] [] [GetWorkflows; ErrorWorkflows 500]).
Proof. reflexivity. Qed.

(** The document of [number_world] holds the value [5] under [uses]. *)
Lemma non_string_reference_skips_document_witness :
  fst (check_workflow (number_world []) (VStr "ci.yml")
         (mkState [("ci.yml", number_text)] [] [])) = inr tt /\
  files (snd (check_workflow (number_world []) (VStr "ci.yml")
                (mkState [("ci.yml", number_text)] [] [])))
    = [("ci.yml", number_text)].
Proof.
  assert (forall a, VScalar (SInt 5) <> VStr a) as Hv by (intros a H; discriminate H).
  destruct (non_string_reference_skips_document (number_world []) "ci.yml" number_text
              (steps_value (VScalar (SInt 5)) (VStr "a/b@v1")) (VScalar (SInt 5))
              (mkState [("ci.yml", number_text)] [] [])
              eq_refl eq_refl (or_introl eq_refl) Hv) as (H1 & H2 & _).
  split; [exact H1 | exact H2].
Defined.

(** * Further properties of the code *)

(** ** The extractor and the set of references *)

Lemma get_all_actions_items_app (l1 l2 : list value) :
  get_all_actions (VList (l1 ++ l2))
  = get_all_actions (VList l1) ++ get_all_actions (VList l2).
Proof.
  induction l1 as [|x l1 IH]; [reflexivity|].
  rewrite <- app_comm_cons, !get_all_actions_item, IH. now rewrite app_assoc.
Qed.

Lemma get_all_actions_entries_app (e1 e2 : list (scalar * value)) :
  get_all_actions (VDict (e1 ++ e2))
  = get_all_actions (VDict e1) ++ get_all_actions (VDict e2).
Proof.
  induction e1 as [|[k v] e1 IH]; [reflexivity|].
  rewrite <- app_comm_cons, !get_all_actions_entry, IH. now rewrite app_assoc.
Qed.

(** X1: the extractor yields in document order and does not see nesting:
    the values of a sequence (of a mapping) are those of its first part
    followed by those of the rest; a document wrapped in a sequence, or
    stored under a key other than [uses], yields what it yields alone; and
    the value of a [uses] key is yielded as it is, whatever it is. *)
Theorem get_all_actions_document_order :
  (forall l1 l2,
     get_all_actions (VList (l1 ++ l2))
     = get_all_actions (VList l1) ++ get_all_actions (VList l2)) /\
  (forall e1 e2,
     get_all_actions (VDict (e1 ++ e2))
     = get_all_actions (VDict e1) ++ get_all_actions (VDict e2)) /\
  (forall d, get_all_actions (VList [d]) = get_all_actions d) /\
  (forall key d, key_is key workflow_action_key = false ->
                 get_all_actions (VDict [(key, d)]) = get_all_actions d) /\
  (forall key v, key_is key workflow_action_key = true ->
                 get_all_actions (VDict [(key, v)]) = [v]).
Proof.
  split; [exact get_all_actions_items_app|].
  split; [exact get_all_actions_entries_app|].
  split; [|split].
  - intros d. rewrite get_all_actions_item. apply app_nil_r.
  - intros key d Hk. rewrite get_all_actions_entry, Hk. apply app_nil_r.
  - intros key v Hk. rewrite get_all_actions_entry, Hk. reflexivity.
Qed.

Lemma get_all_actions_document_order_witness :
  get_all_actions (VDict [(SStr "jobs", steps_value (VStr "a/b@v1") (VStr "c/d@v2"))])
  = [VStr "a/b@v1"; VStr "c/d@v2"].
Proof.
  destruct get_all_actions_document_order as (_ & _ & _ & Hkey & _).
  rewrite (Hkey (SStr "jobs") _ eq_refl). reflexivity.
Defined.

Lemma set_add_nodup (c : scalar) (s : list scalar) : NoDup s -> NoDup (set_add c s).
Proof.
  intros H. unfold set_add. destruct (existsb (py_eqb c) s) eqn:E; [exact H|].
  apply (Permutation_NoDup (Permutation_cons_append s c)).
  constructor; [|exact H]. intros Hin.
  assert (existsb (py_eqb c) s = true) as E'
    by (apply existsb_exists; exists c; split; [exact Hin | apply py_eqb_refl]).
  congruence.
Qed.

Lemma set_add_length (c : scalar) (s : list scalar) :
  List.length (set_add c s) <= S (List.length s).
Proof.
  unfold set_add. destruct (existsb (py_eqb c) s); [lia|].
  rewrite length_app. simpl. lia.
Qed.

Lemma set_from_nodup (items : list value) :
  forall acc s, set_from items acc = inr s -> NoDup acc -> NoDup s.
Proof.
  induction items as [|v items IH]; intros acc s H Hnd.
  - now injection H as <-.
  - destruct v as [c| |]; try discriminate H. simpl in H.
    eapply IH; [exact H | now apply set_add_nodup].
Qed.

Lemma set_from_length (items : list value) :
  forall acc s, set_from items acc = inr s ->
                List.length s <= List.length acc + List.length items.
Proof.
  induction items as [|v items IH]; intros acc s H.
  - injection H as <-. simpl. lia.
  - destruct v as [c| |]; try discriminate H. simpl in H.
    apply IH in H. pose proof (set_add_length c acc). simpl. lia.
Qed.

Lemma set_from_unhashable (items : list value) :
  forall acc e, set_from items acc = inl e ->
                exists v, In v items /\ forall c, v <> VScalar c.
Proof.
  induction items as [|v items IH]; intros acc e H; [discriminate|].
  destruct v as [c|l|es].
  - simpl in H. destruct (IH _ _ H) as (u & Hin & Hu). exists u. split; [now right | exact Hu].
  - exists (VList l). split; [now left | discriminate].
  - exists (VDict es). split; [now left | discriminate].
Qed.

(** X2: the references a document is checked for (lines 64-68).  When the
    set can be built, they are without duplicates, no more than the values
    yielded, and the strings among them are exactly the yielded strings that
    are not in the ignore set.  The set cannot be built, and [TypeError] is
    raised, exactly when some yielded value is a mapping or a sequence. *)
Theorem actions_to_check_characterised (w : world) (data : value) :
  (forall actions,
     actions_to_check w data = inr actions ->
     NoDup actions /\
     List.length actions <= List.length (get_all_actions data) /\
     forall a, In (SStr a) actions <->
               In (VStr a) (get_all_actions data) /\ ~ In a (ignore_actions w)) /\
  (actions_to_check w data = inl TypeError <->
   exists v, In v (get_all_actions data) /\ forall c, v <> VScalar c) /\
  (forall e, actions_to_check w data = inl e -> e = TypeError).
Proof.
  split; [|split].
  - intros actions E. split; [|split].
    + unfold actions_to_check, py_set in E.
      destruct (set_from (get_all_actions data) []) as [e|set] eqn:F; [discriminate|].
      injection E as <-.
      apply (Permutation_NoDup (set_iteration_perm _ _)).
      apply NoDup_filter. eapply set_from_nodup; [exact F | constructor].
    + unfold actions_to_check, py_set in E.
      destruct (set_from (get_all_actions data) []) as [e|set] eqn:F; [discriminate|].
      injection E as <-.
      rewrite <- (Permutation_length (set_iteration_perm _ _)).
      pose proof (set_from_length _ _ _ F) as L. simpl in L.
      pose proof (filter_length_le
                    (fun c => negb (existsb (fun i => py_eqb c (SStr i)) (ignore_actions w)))
                    set) as L'.
      unfold difference_update. lia.
    + intros a. split.
      * apply actions_to_check_in. exact E.
      * intros [Hin Hi]. eapply actions_to_check_complete; eauto.
  - unfold actions_to_check, py_set. split.
    + destruct (set_from (get_all_actions data) []) as [e|set] eqn:F; [|discriminate].
      intros _. eapply set_from_unhashable. exact F.
    + intros H. now rewrite (set_from_raises _ [] H).
  - apply actions_to_check_exception.
Qed.

(** ** The number of requests *)

Lemma count_lookups_app (e1 e2 : list event) :
  count_lookups (e1 ++ e2) = count_lookups e1 + count_lookups e2.
Proof. unfold count_lookups. now rewrite filter_app, length_app. Qed.

Lemma check_action_lookups (w : world) (action : scalar) (locals : string * bool) (s : state) :
  exists events,
    log (snd (check_action w action locals s)) = log s ++ events /\
    count_lookups events <= 1.
Proof.
  rewrite check_action_spec.
  destruct (verdict_of w action); simpl;
    try (eexists; split; [reflexivity | unfold count_lookups; simpl; lia]).
  exists []. split; [now rewrite app_nil_r | unfold count_lookups; simpl; lia].
Qed.

Lemma check_actions_lookups (w : world) (actions : list scalar) :
  forall locals s,
    exists events,
      log (snd (check_actions w actions locals s)) = log s ++ events /\
      count_lookups events <= List.length actions.
Proof.
  induction actions as [|c rest IH]; intros locals s.
  - exists []. split; [now rewrite app_nil_r | unfold count_lookups; simpl; lia].
  - rewrite check_actions_cons.
    destruct (check_action_lookups w c locals s) as (ev1 & Hl & Hc).
    destruct (check_action w c locals s) as [[e|locals'] s1]; cbn [snd] in *.
    + exists ev1. split; [exact Hl | simpl; lia].
    + destruct (IH locals' s1) as (ev2 & Hl2 & Hc2).
      exists (ev1 ++ ev2). split.
      * now rewrite Hl2, Hl, app_assoc.
      * rewrite count_lookups_app. simpl. lia.
Qed.

(** X3: reconciling a document makes at most one release lookup per value
    yielded by the extractor (one per element of the deduplicated set), and
    none at all when the document cannot be parsed. *)
Theorem reconcile_lookup_bound (w : world) (file_data : string) (s : state) :
  exists events,
    log (snd (reconcile w file_data s)) = log s ++ events /\
    (forall data, yaml_load w file_data = Some data ->
                  count_lookups events <= List.length (get_all_actions data)) /\
    (yaml_load w file_data = None -> events = []).
Proof.
  unfold reconcile. destruct (yaml_load w file_data) as [data|].
  - unfold bind, lift. destruct (actions_to_check w data) as [e|actions] eqn:E.
    + exists []. cbn [snd]. split; [now rewrite app_nil_r|].
      split; [intros d _; unfold count_lookups; simpl; lia | discriminate].
    + destruct (check_actions_lookups w actions (file_data, false) s) as (events & Hl & Hc).
      exists events. split; [exact Hl|]. split; [|discriminate].
      intros d Hd. injection Hd as <-.
      unfold actions_to_check, py_set in E.
      destruct (set_from (get_all_actions data) []) as [e|set] eqn:F; [discriminate|].
      injection E as <-.
      rewrite <- (Permutation_length (set_iteration_perm _ _)) in Hc.
      pose proof (set_from_length _ _ _ F) as L. simpl in L.
      pose proof (filter_length_le
                    (fun c => negb (existsb (fun i => py_eqb c (SStr i)) (ignore_actions w)))
                    set) as L'.
      unfold difference_update in Hc. lia.
  - exists []. cbn [snd raise]. split; [now rewrite app_nil_r|].
    split; [discriminate | reflexivity].
Qed.

(** ** The working tree *)

Lemma write_file_paths (fs : list (string * string)) (p d : string) :
  map fst (write_file fs p d) = map fst fs.
Proof.
  induction fs as [|[q e] fs IH]; [reflexivity|].
  simpl. destruct (String.eqb q p); simpl; [reflexivity | now rewrite IH].
Qed.

Lemma read_write_other (fs : list (string * string)) (p q d : string) :
  q <> p -> read_file (write_file fs p d) q = read_file fs q.
Proof.
  intros Hne. induction fs as [|[x e] fs IH]; [reflexivity|].
  simpl. destruct (String.eqb x p) eqn:Exp; simpl.
  - apply String.eqb_eq in Exp. subst x.
    assert (String.eqb p q = false) as -> by (apply String.eqb_neq; congruence).
    reflexivity.
  - destruct (String.eqb x q); [reflexivity | exact IH].
Qed.

Lemma read_write_same (fs : list (string * string)) (p d : string) :
  read_file fs p <> None -> read_file (write_file fs p d) p = Some d.
Proof.
  induction fs as [|[x e] fs IH]; intros H; [now destruct H|].
  simpl in *. destruct (String.eqb x p) eqn:Exp; simpl; rewrite Exp; auto.
Qed.

Lemma read_write_none (fs : list (string * string)) (p q d : string) :
  read_file (write_file fs p d) q = None <-> read_file fs q = None.
Proof.
  destruct (string_dec q p) as [->|Hne]; [|now rewrite read_write_other].
  induction fs as [|[x e] fs IH]; [reflexivity|].
  simpl. destruct (String.eqb x p) eqn:Exp; simpl; rewrite Exp; [|exact IH].
  split; discriminate.
Qed.

(** One workflow: the files keep their paths, and only the file of the
    document can change. *)
Lemma check_workflow_files (w : world) (workflow_path : value) (s : state) :
  map fst (files (snd (check_workflow w workflow_path s))) = map fst (files s) /\
  (forall q, workflow_path <> VStr q ->
             read_file (files (snd (check_workflow w workflow_path s))) q
             = read_file (files s) q) /\
  (forall q, read_file (files (snd (check_workflow w workflow_path s))) q = None
             <-> read_file (files s) q = None).
Proof.
  destruct (check_workflow_writes w workflow_path s)
    as (events & _ & [[_ Hf]|(p & text & fd & Hp & _ & _ & Hf & _)]); rewrite Hf.
  - repeat split; auto.
  - split; [apply write_file_paths|]. split.
    + intros q Hq. apply read_write_other. intros ->. now apply Hq.
    + intros q. apply read_write_none.
Qed.

Lemma check_workflows_cons (w : world) (x : value) (rest : list value) (s : state) :
  check_workflows w (x :: rest) s
  = check_workflows w rest (snd (check_workflow w x s)).
Proof.
  simpl. unfold bind. pose proof (check_workflow_returns w x s) as H.
  destruct (check_workflow w x s) as [[e|[]] s1]; [discriminate H | reflexivity].
Qed.

Lemma check_workflows_files (w : world) (workflow_paths : list value) :
  forall s,
    map fst (files (snd (check_workflows w workflow_paths s))) = map fst (files s) /\
    (forall q, ~ In (VStr q) workflow_paths ->
               read_file (files (snd (check_workflows w workflow_paths s))) q
               = read_file (files s) q) /\
    (forall q, read_file (files (snd (check_workflows w workflow_paths s))) q = None
               <-> read_file (files s) q = None).
Proof.
  induction workflow_paths as [|x rest IH]; intros s.
  - simpl. repeat split; auto.
  - rewrite check_workflows_cons.
    destruct (check_workflow_files w x s) as (P1 & R1 & N1).
    destruct (IH (snd (check_workflow w x s))) as (P2 & R2 & N2).
    split; [congruence|]. split.
    + intros q Hq. rewrite R2, R1; [reflexivity | |].
      * intros ->. apply Hq. now left.
      * intros Hin. apply Hq. now right.
    + intros q. now rewrite N2, N1.
Qed.

Lemma files_logged (s : state) (events : list event) : files (logged s events) = files s.
Proof. reflexivity. Qed.

Lemma get_workflow_paths_files (w : world) (s : state) :
  files (snd (get_workflow_paths w s)) = files s.
Proof.
  rewrite get_workflow_paths_spec.
  destruct (status_code (workflows_response w) =? 200)%Z; [|reflexivity].
  destruct (json (workflows_response w)); reflexivity.
Qed.

Lemma run_files (w : world) (s : state) :
  files (snd (run w s)) =
  match fst (get_workflow_paths w s) with
  | inr (x :: rest) => files (after_workflows w (x :: rest) s)
  | _ => files s
  end.
Proof.
  rewrite run_spec.
  destruct (fst (get_workflow_paths w s)) as [e|[|x rest]].
  - apply get_workflow_paths_files.
  - reflexivity.
  - cbv zeta. destruct (git_has_changes w _); [|reflexivity].
    destruct (skip_pull_request w); reflexivity.
Qed.

(** X4: a run creates, deletes and renames no file, and can change only the
    files whose paths the workflow listing returned; when the listing fails,
    raises or is empty it changes none. *)
Theorem run_touches_only_listed_workflows (w : world) (s : state) :
  map fst (files (snd (run w s))) = map fst (files s) /\
  (forall workflow_paths q,
     fst (get_workflow_paths w s) = inr workflow_paths ->
     ~ In (VStr q) workflow_paths ->
     read_file (files (snd (run w s))) q = read_file (files s) q) /\
  (forall e, fst (get_workflow_paths w s) = inl e -> files (snd (run w s)) = files s) /\
  (fst (get_workflow_paths w s) = inr [] -> files (snd (run w s)) = files s).
Proof.
  rewrite run_files.
  destruct (fst (get_workflow_paths w s)) as [e|[|x rest]] eqn:P.
  - split; [reflexivity|]. split; [discriminate|]. split; [reflexivity|]. discriminate.
  - split; [reflexivity|]. split; [reflexivity|]. split; [discriminate | reflexivity].
  - unfold after_workflows.
    destruct (check_workflows_files w (x :: rest)
                (logged (cleared s) (GetWorkflows :: ignore_echo w))) as (P1 & R1 & _).
    split; [exact P1|]. split; [|split; discriminate].
    intros paths q E Hq. injection E as <-. now apply R1.
Qed.

(** ** The set of lines *)

Lemma check_action_lines_grow (w : world) (action : scalar) (locals : string * bool)
    (s : state) :
  (NoDup (pull_request_body_lines s) ->
   NoDup (pull_request_body_lines (snd (check_action w action locals s)))) /\
  incl (pull_request_body_lines s)
       (pull_request_body_lines (snd (check_action w action locals s))).
Proof.
  rewrite check_action_spec.
  destruct (verdict_of w action); cbn [snd logged pull_request_body_lines];
    try (split; [auto | apply incl_refl]).
  split; [apply lines_add_nodup|]. intros x Hx. apply lines_add_in. now right.
Qed.

Lemma check_actions_lines_grow (w : world) (actions : list scalar) :
  forall locals s,
    (NoDup (pull_request_body_lines s) ->
     NoDup (pull_request_body_lines (snd (check_actions w actions locals s)))) /\
    incl (pull_request_body_lines s)
         (pull_request_body_lines (snd (check_actions w actions locals s))).
Proof.
  induction actions as [|c rest IH]; intros locals s.
  - simpl. split; [auto | apply incl_refl].
  - rewrite check_actions_cons.
    destruct (check_action_lines_grow w c locals s) as [N1 I1].
    destruct (check_action w c locals s) as [[e|locals'] s1]; cbn [snd] in *.
    + now split.
    + destruct (IH locals' s1) as [N2 I2]. split; [auto|].
      eapply incl_tran; eauto.
Qed.

Lemma reconcile_lines_grow (w : world) (file_data : string) (s : state) :
  (NoDup (pull_request_body_lines s) ->
   NoDup (pull_request_body_lines (snd (reconcile w file_data s)))) /\
  incl (pull_request_body_lines s)
       (pull_request_body_lines (snd (reconcile w file_data s))).
Proof.
  unfold reconcile. destruct (yaml_load w file_data) as [data|].
  - unfold bind, lift. destruct (actions_to_check w data) as [e|actions].
    + split; [auto | apply incl_refl].
    + apply check_actions_lines_grow.
  - split; [auto | apply incl_refl].
Qed.

Lemma check_workflow_lines_grow (w : world) (workflow_path : value) (s : state) :
  (NoDup (pull_request_body_lines s) ->
   NoDup (pull_request_body_lines (snd (check_workflow w workflow_path s)))) /\
  incl (pull_request_body_lines s)
       (pull_request_body_lines (snd (check_workflow w workflow_path s))).
Proof.
  rewrite check_workflow_spec.
  destruct workflow_path as [[| | |p]| |]; try (split; [auto | apply incl_refl]).
  destruct (read_file (files s) p) as [file_data|]; [|split; [auto | apply incl_refl]].
  pose proof (reconcile_lines_grow w file_data (logged s [GroupChecking p])) as H.
  destruct (reconcile w file_data (logged s [GroupChecking p])) as [[e|[text [|]]] s'];
    exact H.
Qed.

Lemma check_workflows_lines_grow (w : world) (workflow_paths : list value) :
  forall s,
    (NoDup (pull_request_body_lines s) ->
     NoDup (pull_request_body_lines (snd (check_workflows w workflow_paths s)))) /\
    incl (pull_request_body_lines s)
         (pull_request_body_lines (snd (check_workflows w workflow_paths s))).
Proof.
  induction workflow_paths as [|x rest IH]; intros s.
  - split; [auto | apply incl_refl].
  - rewrite check_workflows_cons.
    destruct (check_workflow_lines_grow w x s) as [N1 I1].
    destruct (IH (snd (check_workflow w x s))) as [N2 I2].
    split; [auto | eapply incl_tran; eauto].
Qed.

(** X5: the lines of the pull-request body form a set throughout: while the
    workflows are checked no line is added twice and none is removed, also
    when a document is skipped halfway; and the set a run that got a listing
    ends with has no duplicate, whatever the state it started from. *)
Theorem pull_request_lines_stay_a_set (w : world) :
  (forall workflow_paths s,
     (NoDup (pull_request_body_lines s) ->
      NoDup (pull_request_body_lines (snd (check_workflows w workflow_paths s)))) /\
     incl (pull_request_body_lines s)
          (pull_request_body_lines (snd (check_workflows w workflow_paths s)))) /\
  (forall s workflow_paths,
     fst (get_workflow_paths w s) = inr workflow_paths ->
     NoDup (pull_request_body_lines (snd (run w s)))).
Proof.
  split; [intros paths s; apply check_workflows_lines_grow|].
  intros s paths P. rewrite run_spec, P.
  destruct paths as [|x rest]; [constructor|].
  cbv zeta.
  assert (NoDup (pull_request_body_lines (after_workflows w (x :: rest) s))) as H.
  { unfold after_workflows. apply check_workflows_lines_grow. constructor. }
  destruct (git_has_changes w _); [|exact H].
  destruct (skip_pull_request w); exact H.
Qed.

(** ** Documents that fail *)






(** ** References without a usable release *)

(** X8: a reference whose release lookup is answered with a status other
    than 200 is skipped with a warning naming the repository and the status,
    and the loop goes on with the next reference, with text, flag and lines
    as they were. *)
Theorem reference_without_release (w : world) (a r v : string) :
  split at_sign a = [r; v] ->
  release_status (latest_release w r) <> 200%Z ->
  forall rest locals s,
    check_actions w (SStr a :: rest) locals s
    = check_actions w rest locals
        (logged s [GetLatestRelease r;
                   WarningNoRelease r (release_status (latest_release w r))]).
Proof.
  intros Hs Hst rest locals s. rewrite check_actions_cons, check_action_spec.
  unfold verdict_of. rewrite Hs. apply Z.eqb_neq in Hst. now rewrite Hst.
Qed.

Lemma reference_without_release_witness :
  check_actions checkout_world [SStr "x/y@v1"; SStr "actions/checkout@v3"]
    (checkout_text, false) fresh
  = check_actions checkout_world [SStr "actions/checkout@v3"] (checkout_text, false)
      (logged fresh [GetLatestRelease "x/y"; WarningNoRelease "x/y" 404]).
Proof.
  apply (reference_without_release checkout_world "x/y@v1" "x/y" "v1" eq_refl).
  discriminate.
Defined.

(** The loop raises when it reaches an element on which [check_action]
    raises, or before. *)
Lemma check_actions_raising_element (w : world) (actions : list scalar) (c : scalar) :
  In c actions ->
  (verdict_of w c = NotAString \/ exists r, verdict_of w c = LookupRaises r) ->
  forall locals s, exists e, fst (check_actions w actions locals s) = inl e.
Proof.
  induction actions as [|x rest IH]; intros Hin V locals s; [destruct Hin|].
  rewrite check_actions_cons. destruct Hin as [->|Hin].
  - rewrite check_action_spec. destruct V as [V|[r V]]; rewrite V; eexists; reflexivity.
  - destruct (check_action w x locals s) as [[e|locals'] s1]; [now exists e|].
    now apply IH.
Qed.

(** X17: a release answer with status 200 whose body lacks one of the four
    fields is not treated as "no release": the lookup raises, the error
    leaves the loop, and the whole document is skipped.  The file is not
    written and the skip diagnostic closes the document, whatever the other
    references of the document are. *)
Theorem unreadable_release_skips_document
    (w : world) (p file_data : string) (data : value) (a r v : string) (s : state) :
  read_file (files s) p = Some file_data ->
  yaml_load w file_data = Some data ->
  In (VStr a) (get_all_actions data) ->
  ~ In a (ignore_actions w) ->
  split at_sign a = [r; v] ->
  release_status (latest_release w r) = 200%Z ->
  release_json (latest_release w r) = None ->
  fst (check_workflow w (VStr p) s) = inr tt /\
  files (snd (check_workflow w (VStr p) s)) = files s /\
  exists events,
    log (snd (check_workflow w (VStr p) s))
      = log s ++ GroupChecking p :: events ++ [EchoSkipping (VStr p)] /\
    (forall p' t, ~ In (FileWrite p' t) events).
Proof.
  intros Hr Hy Hin Hi Hs Hst Hj. split; [apply check_workflow_returns|].
  assert (exists e, fst (reconcile w file_data (logged s [GroupChecking p])) = inl e) as [e He].
  { unfold reconcile. rewrite Hy. unfold bind, lift.
    destruct (actions_to_check w data) as [e|actions] eqn:E; [now exists e|].
    apply (check_actions_raising_element w actions (SStr a)).
    - eapply actions_to_check_complete; eauto.
    - right. exists r. unfold verdict_of. now rewrite Hs, Hst, Hj. }
  rewrite check_workflow_spec. unfold VStr. rewrite Hr.
  destruct (reconcile_frame w file_data (logged s [GroupChecking p]))
    as (Hf & events & Hl & Hw & _).
  destruct (reconcile w file_data (logged s [GroupChecking p])) as [[e'|res] s'];
    [|discriminate He].
  cbn [fst snd] in *. split; [exact Hf|].
  exists events. split; [|exact Hw].
  unfold logged in *. cbn [log] in *. rewrite Hl, <- !app_assoc. reflexivity.
Qed.

Lemma unreadable_release_skips_document_witness :
  files (snd (check_workflow fieldless_world (VStr "ci.yml")
                (mkState [("ci.yml", checkout_text)] [] [])))
  = [("ci.yml", checkout_text)].
Proof.
  assert (~ In "actions/checkout@v3" (ignore_actions fieldless_world)) as Hi
    by (intros []).
  exact (proj1 (proj2 (unreadable_release_skips_document fieldless_world
                         "ci.yml" checkout_text
                         (steps_value (VStr "actions/checkout@v3")
                                      (VStr "actions/checkout@v3"))
                         "actions/checkout@v3" "actions/checkout" "v3"
                         (mkState [("ci.yml", checkout_text)] [] [])
                         eq_refl eq_refl (or_introl eq_refl) Hi
                         eq_refl eq_refl eq_refl))).
Defined.

(** ** Documents with nothing to update, and documents with something *)

Lemma reconcile_nothing_outdated (w : world) (file_data : string) (s : state) :
  (forall data a r rel,
     yaml_load w file_data = Some data ->
     In (VStr a) (get_all_actions data) ->
     ~ In a (ignore_actions w) ->
     ~ outdated w a r rel) ->
  pull_request_body_lines (snd (reconcile w file_data s)) = pull_request_body_lines s /\
  forall result, fst (reconcile w file_data s) = inr result -> result = (file_data, false).
Proof.
  intros Hno. unfold reconcile. destruct (yaml_load w file_data) as [data|].
  - unfold bind, lift. destruct (actions_to_check w data) as [e|actions] eqn:E.
    + split; [reflexivity | discriminate].
    + apply check_actions_nothing_outdated. intros a r rel Hin.
      destruct (actions_to_check_in _ _ _ _ E Hin) as [Hx Hi].
      now apply (Hno data).
  - split; [reflexivity | discriminate].
Qed.

Lemma check_workflow_nothing_outdated (w : world) (workflow_path : value) (s : state) :
  (forall p file_data data a r rel,
     workflow_path = VStr p ->
     read_file (files s) p = Some file_data ->
     yaml_load w file_data = Some data ->
     In (VStr a) (get_all_actions data) ->
     ~ In a (ignore_actions w) ->
     ~ outdated w a r rel) ->
  files (snd (check_workflow w workflow_path s)) = files s /\
  pull_request_body_lines (snd (check_workflow w workflow_path s))
  = pull_request_body_lines s.
Proof.
  intros Hno. rewrite check_workflow_spec.
  destruct workflow_path as [[| | |p]| |]; try (split; reflexivity).
  destruct (read_file (files s) p) as [file_data|] eqn:Hr; [|split; reflexivity].
  destruct (reconcile_frame w file_data (logged s [GroupChecking p])) as (Hf & _).
  destruct (reconcile_nothing_outdated w file_data (logged s [GroupChecking p]))
    as (Hl & Hres).
  { intros data a r rel. now apply (Hno p file_data). }
  destruct (reconcile w file_data (logged s [GroupChecking p])) as [[e|[text [|]]] s'];
    cbn [fst snd files pull_request_body_lines logged] in *.
  - now split.
  - discriminate (Hres _ eq_refl).
  - now split.
Qed.

Lemma check_workflows_nothing_outdated (w : world) (workflow_paths : list value) :
  forall s,
    (forall p file_data data a r rel,
       read_file (files s) p = Some file_data ->
       yaml_load w file_data = Some data ->
       In (VStr a) (get_all_actions data) ->
       ~ In a (ignore_actions w) ->
       ~ outdated w a r rel) ->
    files (snd (check_workflows w workflow_paths s)) = files s /\
    pull_request_body_lines (snd (check_workflows w workflow_paths s))
    = pull_request_body_lines s.
Proof.
  induction workflow_paths as [|x rest IH]; intros s Hno; [now split|].
  rewrite check_workflows_cons.
  destruct (check_workflow_nothing_outdated w x s) as [Hf Hl].
  { intros p fd data a r rel _. apply Hno. }
  destruct (IH (snd (check_workflow w x s))) as [Hf2 Hl2].
  { rewrite Hf. exact Hno. }
  split; congruence.
Qed.

(** X9: a run over a repository in which no reference of any file is
    outdated (each is up to date, has no release, is malformed or ignored)
    leaves every file as it was and ends with an empty set of lines. *)
Theorem run_without_outdated_reference (w : world) (s : state) :
  (forall p file_data data a r rel,
     read_file (files s) p = Some file_data ->
     yaml_load w file_data = Some data ->
     In (VStr a) (get_all_actions data) ->
     ~ In a (ignore_actions w) ->
     ~ outdated w a r rel) ->
  files (snd (run w s)) = files s /\
  (forall workflow_paths,
     fst (get_workflow_paths w s) = inr workflow_paths ->
     pull_request_body_lines (snd (run w s)) = []).
Proof.
  intros Hno. split.
  - rewrite run_files. destruct (fst (get_workflow_paths w s)) as [e|[|x rest]]; try reflexivity.
    unfold after_workflows.
    destruct (check_workflows_nothing_outdated w (x :: rest)
                (logged (cleared s) (GetWorkflows :: ignore_echo w))) as [Hf _];
      [exact Hno | exact Hf].
  - intros paths P. rewrite run_spec, P. destruct paths as [|x rest]; [reflexivity|].
    cbv zeta.
    assert (pull_request_body_lines (after_workflows w (x :: rest) s) = []) as H.
    { unfold after_workflows.
      destruct (check_workflows_nothing_outdated w (x :: rest)
                  (logged (cleared s) (GetWorkflows :: ignore_echo w))) as [_ Hl];
        [exact Hno | exact Hl]. }
    destruct (git_has_changes w _); [|exact H].
    destruct (skip_pull_request w); exact H.
Qed.

Lemma up_to_date_world_has_nothing_outdated (p file_data : string) (data : value)
    (a r : string) (rel : release) :
  read_file [("ci.yml", checkout_text)] p = Some file_data ->
  yaml_load up_to_date_world file_data = Some data ->
  In (VStr a) (get_all_actions data) ->
  ~ In a (ignore_actions up_to_date_world) ->
  ~ outdated up_to_date_world a r rel.
Proof.
  intros Hr Hy Hin _ (version & Hs & _ & Hj & Hne).
  cbn [read_file] in Hr. destruct (String.eqb "ci.yml" p); [|discriminate Hr].
  injection Hr as <-. vm_compute in Hy. injection Hy as <-.
  assert (a = "actions/checkout@v3") as ->.
  { destruct Hin as [H|[H|[]]]; now injection H. }
  vm_compute in Hs. injection Hs as <- <-.
  vm_compute in Hj. injection Hj as <-. now apply Hne.
Qed.

Lemma run_without_outdated_reference_witness :
  files (snd (run up_to_date_world (mkState [("ci.yml", checkout_text)] [] [])))
  = [("ci.yml", checkout_text)].
Proof.
  exact (proj1 (run_without_outdated_reference up_to_date_world
                  (mkState [("ci.yml", checkout_text)] [] [])
                  up_to_date_world_has_nothing_outdated)).
Defined.

Lemma check_actions_sets_flag (w : world) (actions : list scalar) :
  all_checkable w actions ->
  forall locals s,
    snd locals = true \/ (exists a r rel, In (SStr a) actions /\ outdated w a r rel) ->
    exists text s', check_actions w actions locals s = (inr (text, true), s').
Proof.
  induction actions as [|c rest IH]; intros Hok locals s Hflag.
  - destruct Hflag as [Hf|(a & r & rel & [] & _)].
    destruct locals as [t f]. simpl in Hf. subst f. now exists t, s.
  - pose proof (Forall_inv Hok) as [Hstr Hjson]. cbv beta in Hstr, Hjson.
    pose proof (Forall_inv_tail Hok) as Hrest.
    rewrite check_actions_cons, check_action_spec.
    destruct (verdict_of w c) as [|a'|r'|r' st|r'|a' r' rel] eqn:V.
    + now destruct Hstr.
    + apply (IH Hrest). destruct Hflag as [Hf|(a & r & rel & [Hc|Hin] & Ho)];
        [now left | | right; eauto].
      subst c. apply outdated_verdict in Ho. congruence.
    + now destruct (Hjson r').
    + apply (IH Hrest). destruct Hflag as [Hf|(a & r & rel & [Hc|Hin] & Ho)];
        [now left | | right; eauto].
      subst c. apply outdated_verdict in Ho. congruence.
    + apply (IH Hrest). destruct Hflag as [Hf|(a & r & rel & [Hc|Hin] & Ho)];
        [now left | | right; eauto].
      subst c. apply outdated_verdict in Ho. congruence.
    + apply (IH Hrest). now left.
Qed.

(** X10: a change found is a change written.  When the file of a workflow
    can be read and parsed, no reference of it raises, and one extracted
    reference outside the ignore set is outdated, the reconciliation ends
    with the flag set and its text is what the file holds afterwards. *)
Theorem outdated_reference_is_written_back
    (w : world) (p file_data : string) (data : value) (actions : list scalar)
    (a r : string) (rel : release) (s : state) :
  read_file (files s) p = Some file_data ->
  yaml_load w file_data = Some data ->
  actions_to_check w data = inr actions ->
  all_checkable w actions ->
  In (VStr a) (get_all_actions data) ->
  ~ In a (ignore_actions w) ->
  outdated w a r rel ->
  exists text,
    fst (reconcile w file_data (logged s [GroupChecking p])) = inr (text, true) /\
    read_file (files (snd (check_workflow w (VStr p) s))) p = Some text /\
    In (FileWrite p text) (log (snd (check_workflow w (VStr p) s))).
Proof.
  intros Hr Hy Ha Hok Hin Hi Ho.
  rewrite check_workflow_spec. unfold VStr. rewrite Hr.
  destruct (reconcile_frame w file_data (logged s [GroupChecking p])) as (Hf & _).
  unfold reconcile, bind, lift in *. rewrite Hy, Ha in *.
  destruct (check_actions_sets_flag w actions Hok (file_data, false)
              (logged s [GroupChecking p])) as (text & s' & E).
  { right. exists a, r, rel. split; [|exact Ho].
    eapply actions_to_check_complete; eauto. }
  rewrite E in *. cbn [fst snd files log] in *. exists text.
  split; [reflexivity|]. split.
  - rewrite Hf. apply read_write_same. simpl. congruence.
  - apply in_or_app. right. now left.
Qed.

Lemma checkout_world_is_checkable :
  all_checkable checkout_world [SStr "actions/checkout@v3"].
Proof.
  constructor; [|constructor]. split; [discriminate | intros r; discriminate].
Qed.

Lemma outdated_reference_is_written_back_witness :
  exists text,
    read_file (files (snd (check_workflow checkout_world (VStr "ci.yml")
                             (mkState [("ci.yml", checkout_text)] [] []))))
              "ci.yml" = Some text /\
    text <> checkout_text.
Proof.
  assert (outdated checkout_world "actions/checkout@v3" "actions/checkout"
            (mkRelease "2024-01-01T00:00:00Z"
               "https://github.com/actions/checkout/releases/tag/v4" "v4" EmptyString))
    as Ho.
  { exists "v3". repeat split. discriminate. }
  assert (~ In "actions/checkout@v3" (ignore_actions checkout_world)) as Hi
    by (intros []).
  destruct (outdated_reference_is_written_back checkout_world "ci.yml" checkout_text
              (steps_value (VStr "actions/checkout@v3") (VStr "actions/checkout@v3"))
              [SStr "actions/checkout@v3"] "actions/checkout@v3" "actions/checkout" _
              (mkState [("ci.yml", checkout_text)] [] [])
              eq_refl eq_refl eq_refl checkout_world_is_checkable
              (or_introl eq_refl) Hi Ho) as (text & Hrec & Hread & _).
  exists text. split; [exact Hread|].
  vm_compute in Hrec. injection Hrec as <-. discriminate.
Defined.

(** ** When the substitution changes the text *)

Lemma append_same_length (a b x y : string) :
  (a ++ x = b ++ y)%string -> String.length a = String.length b -> a = b.
Proof.
  revert b. induction a as [|c a IH]; intros [|d b] H L; try discriminate L.
  - reflexivity.
  - simpl in H. injection H as -> H. simpl in L. injection L as L.
    f_equal. now apply IH.
Qed.

(** Each replacement trades the length of [old] for that of [new]. *)
Lemma replace_scan_length (c : ascii) (o new : string) (n : nat) :
  forall s, String.length s <= n ->
  exists k,
    String.length (replace_scan n (String c o) new s) + k * String.length (String c o)
    = String.length s + k * String.length new /\
    (occurs (String c o) s = true -> 1 <= k).
Proof.
  induction n as [|n IH]; intros s Hlen.
  - destruct s; [|simpl in Hlen; lia]. exists 0. split; [reflexivity | discriminate].
  - destruct s as [|d s]; [exists 0; split; [reflexivity | discriminate]|].
    cbn [replace_scan]. destruct (prefix (String c o) (String d s)) eqn:Hp.
    + pose proof (prefix_split _ _ Hp) as Hs.
      destruct (IH (drop (String.length (String c o)) (String d s))) as (k & Hk & _).
      { rewrite length_drop. simpl in *. lia. }
      exists (S k). split; [|lia].
      rewrite length_append.
      assert (String.length (String d s)
              = String.length (String c o)
                + String.length (drop (String.length (String c o)) (String d s))) as L
        by (rewrite <- length_append, <- Hs; reflexivity).
      lia.
    + destruct (IH s) as (k & Hk & Hocc); [simpl in Hlen; lia|].
      exists k. split; [simpl in *; lia|].
      intros H. apply Hocc. cbn [occurs] in H. rewrite Hp in H. exact H.
Qed.

Lemma replace_scan_same_length (c : ascii) (o new : string) (n : nat) :
  String.length (String c o) = String.length new ->
  String c o <> new ->
  forall s, String.length s <= n ->
            occurs (String c o) s = true ->
            replace_scan n (String c o) new s <> s.
Proof.
  intros Hl Hne. induction n as [|n IH]; intros s Hlen Hocc.
  - destruct s; [discriminate Hocc | simpl in Hlen; lia].
  - destruct s as [|d s]; [discriminate Hocc|].
    cbn [replace_scan]. destruct (prefix (String c o) (String d s)) eqn:Hp.
    + intros H. apply Hne. pose proof (prefix_split _ _ Hp) as Hs.
      rewrite Hs in H at 2. symmetry. eapply append_same_length; [exact H | now symmetry].
    + intros H. injection H as H. revert H. apply IH; [simpl in Hlen; lia|].
      cbn [occurs] in Hocc. now rewrite Hp in Hocc.
Qed.

(** The text is changed exactly when the pattern occurs in it. *)
Lemma replace_fixed_iff (c : ascii) (o new s : string) :
  String c o <> new ->
  (replace (String c o) new s = s <-> occurs (String c o) s = false).
Proof.
  intros Hne. split; [|apply replace_absent].
  intros H. destruct (occurs (String c o) s) eqn:Hocc; [exfalso|reflexivity].
  unfold replace in H.
  destruct (Nat.eq_dec (String.length (String c o)) (String.length new)) as [Hl|Hl].
  - exact (replace_scan_same_length c o new _ Hl Hne s (le_n _) Hocc H).
  - destruct (replace_scan_length c o new (String.length s) s (le_n _)) as (k & Hk & Hpos).
    specialize (Hpos Hocc). rewrite H in Hk.
    assert (k * String.length (String c o) = k * String.length new) as E by lia.
    apply Nat.mul_cancel_l in E; [contradiction | lia].
Qed.

(** X11: the substitution made for an outdated reference changes the text
    exactly when the reference occurs verbatim in it; the flag is set in
    both cases. *)
Theorem substitution_changes_text_iff_reference_occurs
    (w : world) (a r : string) (rel : release) :
  outdated w a r rel ->
  forall text flag s,
    exists text' s',
      check_action w (SStr a) (text, flag) s = (inr (text', true), s') /\
      (text' = text <-> occurs a text = false).
Proof.
  intros Ho text flag s. rewrite check_action_spec.
  pose proof Ho as Hv. apply outdated_verdict in Hv. rewrite Hv.
  eexists. eexists. split; [reflexivity|]. cbn [fst].
  destruct Ho as (v & Hs & _ & _ & Hne).
  destruct (split_two _ _ _ _ Hs) as [Ha _].
  destruct a as [|c o]; [destruct r; discriminate Ha|].
  apply replace_fixed_iff. rewrite Ha. unfold updated_action. intros H.
  apply append_inj_l in H. injection H as H. congruence.
Qed.

Lemma substitution_changes_text_iff_reference_occurs_witness :
  exists text' s',
    check_action escaped_world (SStr "a/b@v1") (escaped_text, false) fresh
    = (inr (text', true), s') /\
    (text' = escaped_text <-> occurs "a/b@v1" escaped_text = false).
Proof.
  apply (substitution_changes_text_iff_reference_occurs escaped_world "a/b@v1" "a/b"
           (mkRelease "2024-01-01T00:00:00Z"
              "https://github.com/a/b/releases/tag/v2" "v2" EmptyString)).
  exists "v1". repeat split. discriminate.
Defined.

(** ** The body of the pull request *)

Lemma prefix_refl (x : string) : prefix x x = true.
Proof. rewrite <- (append_nil_r x) at 2. apply prefix_self_append. Qed.

Lemma occurs_append_l (x a b : string) :
  occurs x a = true -> occurs x (a ++ b)%string = true.
Proof.
  induction a as [|c a IH]; intros H.
  - simpl in H. rewrite orb_false_r in H.
    destruct x; [destruct b; reflexivity | discriminate H].
  - cbn [occurs] in H. apply orb_true_iff in H as [H|H].
    + change (String c a ++ b)%string with (String c (a ++ b)).
      cbn [occurs]. apply orb_true_iff. left.
      apply (prefix_append x (String c a) b H).
    + change (String c a ++ b)%string with (String c (a ++ b)).
      cbn [occurs]. apply orb_true_iff. right. now apply IH.
Qed.

Lemma occurs_append_r (x a b : string) :
  occurs x b = true -> occurs x (a ++ b)%string = true.
Proof.
  intros H. induction a as [|c a IH]; [exact H|].
  change (String c a ++ b)%string with (String c (a ++ b)).
  cbn [occurs]. apply orb_true_iff. now right.
Qed.

Lemma occurs_refl (x : string) : occurs x x = true.
Proof. destruct x; [reflexivity|]. cbn [occurs]. now rewrite prefix_refl. Qed.

Lemma concat_empty_cons (x : string) (l : list string) :
  String.concat EmptyString (x :: l) = (x ++ String.concat EmptyString l)%string.
Proof. destruct l; simpl; [now rewrite append_nil_r | reflexivity]. Qed.

Lemma occurs_in_concat (x : string) (l : list string) :
  In x l -> occurs x (String.concat EmptyString l) = true.
Proof.
  induction l as [|y l IH]; intros H; [destruct H|].
  rewrite concat_empty_cons. destruct H as [->|H].
  - apply occurs_append_l, occurs_refl.
  - apply occurs_append_r. now apply IH.
Qed.

(** X12: the pull-request body starts with the heading, and every line of
    the set occurs in it, whatever the order in which the set is joined. *)
Theorem pull_request_body_holds_every_line (w : world) (lines : list string) :
  prefix ("### GitHub Actions Version Updates" ++ newline)%string
         (pull_request_body w lines) = true /\
  pull_request_body w [] = ("### GitHub Actions Version Updates" ++ newline)%string /\
  forall line, In line lines -> occurs line (pull_request_body w lines) = true.
Proof.
  unfold pull_request_body. split; [|split].
  - rewrite <- append_assoc. apply prefix_self_append.
  - reflexivity.
  - intros line Hin. apply occurs_append_r, occurs_append_r.
    apply occurs_in_concat. now apply set_iteration_in.
Qed.

(** ** [create_pr.py] *)

Lemma append_inj_r (a b s : string) : (a ++ s = b ++ s)%string -> a = b.
Proof.
  intros H. apply (append_same_length a b s s H).
  apply (f_equal String.length) in H. rewrite !length_append in H. lia.
Qed.

Lemma universal_newlines_bounded (n : nat) :
  forall s, String.length s <= n ->
            count_char CreatePr.carriage_return (CreatePr.universal_newlines s) = 0.
Proof.
  induction n as [|n IH]; intros s Hlen.
  - destruct s; [reflexivity | simpl in Hlen; lia].
  - destruct s as [|c s]; [reflexivity|].
    cbn [CreatePr.universal_newlines].
    destruct (Ascii.eqb c CreatePr.carriage_return) eqn:Ec.
    + cbn [count_char]. change (Ascii.eqb CreatePr.line_feed CreatePr.carriage_return)
        with false. cbn [Nat.add].
      destruct s as [|d s']; [reflexivity|].
      destruct (Ascii.eqb d CreatePr.line_feed); apply IH; simpl in *; lia.
    + cbn [count_char]. rewrite Ec. cbn [Nat.add]. apply IH. simpl in Hlen. lia.
Qed.

(** No carriage return is left in a text that was read. *)
Lemma universal_newlines_no_cr (s : string) :
  count_char CreatePr.carriage_return (CreatePr.universal_newlines s) = 0.
Proof. apply (universal_newlines_bounded (String.length s)). apply le_n. Qed.

(** A text without carriage returns is read as it is stored. *)
Lemma universal_newlines_id (s : string) :
  count_char CreatePr.carriage_return s = 0 -> CreatePr.universal_newlines s = s.
Proof.
  induction s as [|c s IH]; [reflexivity|].
  cbn [count_char CreatePr.universal_newlines].
  destruct (Ascii.eqb c CreatePr.carriage_return); [discriminate|].
  intros H. f_equal. apply IH. exact H.
Qed.

(** X13: the script of [create_pr.py] raises when the file [changes] does
    not exist under the root directory, and otherwise creates one pull
    request whose body is the heading, the text of the file as read in text
    mode (CR LF and CR turned into LF, so that no CR is left) and the closing
    note; head and base are the two environment variables.  Two files give
    the same body exactly when their texts agree after that translation: the
    template adds nothing that could blur them; and a text without CR is
    carried as it is stored. *)
Theorem create_pr_script (getenv : string -> option string) (c : CreatePr.config)
    (fs : list (string * string)) :
  (read_file fs (CreatePr.rootdir c ++ "/changes")%string = None ->
   CreatePr.script getenv c fs = inl OSError) /\
  (forall stored,
     read_file fs (CreatePr.rootdir c ++ "/changes")%string = Some stored ->
     exists pull,
       CreatePr.script getenv c fs = inr pull /\
       CreatePr.pull_body pull
       = (CreatePr.body_before ++ CreatePr.universal_newlines stored
          ++ CreatePr.body_after)%string /\
       count_char CreatePr.carriage_return (CreatePr.universal_newlines stored) = 0 /\
       (count_char CreatePr.carriage_return stored = 0 ->
        CreatePr.universal_newlines stored = stored) /\
       CreatePr.head pull = getenv "ACTION_BRANCHNAME" /\
       CreatePr.base pull = getenv "ACTION_CURRENT_BRANCH") /\
  (forall fs' pull pull' stored stored',
     read_file fs (CreatePr.rootdir c ++ "/changes")%string = Some stored ->
     read_file fs' (CreatePr.rootdir c ++ "/changes")%string = Some stored' ->
     CreatePr.script getenv c fs = inr pull ->
     CreatePr.script getenv c fs' = inr pull' ->
     (CreatePr.pull_body pull = CreatePr.pull_body pull' <->
      CreatePr.universal_newlines stored = CreatePr.universal_newlines stored')).
Proof.
  unfold CreatePr.script. split; [|split].
  - intros H. now rewrite H.
  - intros stored H. rewrite H. eexists. split; [reflexivity|].
    cbn [CreatePr.pull_body CreatePr.head CreatePr.base].
    split; [reflexivity|]. split; [apply universal_newlines_no_cr|].
    split; [apply universal_newlines_id|]. now split.
  - intros fs' pull pull' stored stored' H H'. rewrite H, H'.
    intros E E'. injection E as <-. injection E' as <-.
    cbn [CreatePr.pull_body]. unfold CreatePr.body_format. split.
    + intros Hb. apply append_inj_l in Hb. now apply append_inj_r in Hb.
    + intros ->. reflexivity.
Qed.

(** A file stored with CR LF line ends, one with CR and one with LF are read
    as the same text. *)
Example universal_newlines_line_ends :
  CreatePr.universal_newlines
    (String "a" (String CreatePr.carriage_return (String CreatePr.line_feed "b")))
  = String "a" (String CreatePr.line_feed "b") /\
  CreatePr.universal_newlines (String "a" (String CreatePr.carriage_return "b"))
  = String "a" (String CreatePr.line_feed "b") /\
  CreatePr.universal_newlines (String "a" (String CreatePr.line_feed "b"))
  = String "a" (String CreatePr.line_feed "b") /\
  CreatePr.universal_newlines
    (String CreatePr.carriage_return
       (String CreatePr.carriage_return (String CreatePr.line_feed "b")))
  = String CreatePr.line_feed (String CreatePr.line_feed "b").
Proof. repeat split. Qed.

Lemma overlap_world_is_checkable (actions : list scalar) :
  incl actions [SStr "a/b@v1"; SStr "a/b@v10"] ->
  all_checkable (overlap_world (rank [])) actions.
Proof.
  intros H. apply Forall_forall. intros c Hc.
  destruct (H c Hc) as [<-|[<-|[]]]; (split; [discriminate | intros r; discriminate]).
Qed.

Lemma flag_and_lines_independent_of_order_witness :
  exists text1 text2 flag s1 s2,
    check_actions (overlap_world (rank [])) [SStr "a/b@v1"; SStr "a/b@v10"]
      (overlap_text, false) fresh = (inr (text1, flag), s1) /\
    check_actions (overlap_world (rank [])) [SStr "a/b@v10"; SStr "a/b@v1"]
      (overlap_text, false) fresh = (inr (text2, flag), s2) /\
    forall line, In line (pull_request_body_lines s1) <-> In line (pull_request_body_lines s2).
Proof.
  apply (flag_and_lines_independent_of_order (overlap_world (rank []))
           [SStr "a/b@v1"; SStr "a/b@v10"] [SStr "a/b@v10"; SStr "a/b@v1"]
           overlap_text fresh).
  - apply perm_swap.
  - apply overlap_world_is_checkable. apply incl_refl.
  - constructor.
Defined.

(** ** The lines and the repositories *)

Lemma append_until_char (c : ascii) (a b x y : string) :
  count_char c a = 0 -> count_char c b = 0 ->
  (a ++ String c x = b ++ String c y)%string -> a = b.
Proof.
  revert b. induction a as [|d a IH]; intros [|e b] Ha Hb H.
  - reflexivity.
  - simpl in H. injection H as <- _. simpl in Hb. rewrite Ascii.eqb_refl in Hb. discriminate.
  - simpl in H. injection H as -> _. simpl in Ha. rewrite Ascii.eqb_refl in Ha. discriminate.
  - simpl in H. injection H as -> H. f_equal.
    simpl in Ha, Hb. apply (IH b); [lia | lia | exact H].
Qed.

(** X15: the line of a repository determines the repository: for names
    without the character [[]] (closing bracket), equal lines come from
    equal repositories, whatever the release data; so the set of lines never
    merges the lines of two repositories. *)
Theorem line_determines_repository (r1 r2 : string) (rel1 rel2 : release) :
  count_char (Ascii.ascii_of_nat 93) r1 = 0 ->
  count_char (Ascii.ascii_of_nat 93) r2 = 0 ->
  generate_pull_request_body_line r1 rel1 = generate_pull_request_body_line r2 rel2 ->
  r1 = r2.
Proof.
  intros H1 H2 H. unfold generate_pull_request_body_line in H.
  apply append_inj_l in H.
  exact (append_until_char (Ascii.ascii_of_nat 93) r1 r2 _ _ H1 H2 H).
Qed.

Lemma line_determines_repository_witness :
  count_char (Ascii.ascii_of_nat 93) "actions/checkout" = 0 /\
  "actions/checkout" = "actions/checkout".
Proof.
  split; [reflexivity|].
  exact (line_determines_repository "actions/checkout" "actions/checkout"
           (mkRelease "2024-01-01T00:00:00Z"
              "https://github.com/actions/checkout/releases/tag/v4" "v4" EmptyString)
           (mkRelease "2024-01-01T00:00:00Z"
              "https://github.com/actions/checkout/releases/tag/v4" "v4" EmptyString)
           eq_refl eq_refl eq_refl).
Defined.

Lemma check_action_lines_origin (w : world) (action : scalar) (locals : string * bool)
    (s : state) (line : string) :
  In line (pull_request_body_lines (snd (check_action w action locals s))) ->
  In line (pull_request_body_lines s) \/
  exists a r rel,
    action = SStr a /\ outdated w a r rel /\ line = generate_pull_request_body_line r rel.
Proof.
  rewrite check_action_spec.
  destruct (verdict_of w action) as [|a'|r'|r' st|r'|a' r' rel] eqn:V;
    cbn [snd logged pull_request_body_lines]; auto.
  intros H. apply lines_add_in in H as [->|H]; [|now left].
  right. exists a', r', rel.
  destruct (verdict_outdated_inv _ _ _ _ _ V) as [Hc Ho]. now split.
Qed.

Lemma check_actions_lines_origin (w : world) (actions : list scalar) (line : string) :
  forall locals s,
    In line (pull_request_body_lines (snd (check_actions w actions locals s))) ->
    In line (pull_request_body_lines s) \/
    exists a r rel,
      In (SStr a) actions /\ outdated w a r rel /\
      line = generate_pull_request_body_line r rel.
Proof.
  induction actions as [|c rest IH]; intros locals s H; [now left|].
  rewrite check_actions_cons in H.
  pose proof (check_action_lines_origin w c locals s line) as H1.
  destruct (check_action w c locals s) as [[e|locals'] s1]; cbn [snd] in *.
  - destruct (H1 H) as [Hin|(a & r & rel & -> & Ho & El)]; [now left|].
    right. exists a, r, rel. split; [now left | now split].
  - destruct (IH _ _ H) as [Hin|(a & r & rel & Hin & Ho & El)].
    + destruct (H1 Hin) as [Hin'|(a & r & rel & -> & Ho & El)]; [now left|].
      right. exists a, r, rel. split; [now left | now split].
    + right. exists a, r, rel. split; [now right | now split].
Qed.

(** A line added while a workflow is checked comes from an outdated
    reference extracted from the text of that workflow. *)
Lemma check_workflow_lines_origin (w : world) (workflow_path : value) (s : state)
    (line : string) :
  In line (pull_request_body_lines (snd (check_workflow w workflow_path s))) ->
  In line (pull_request_body_lines s) \/
  exists p file_data data a r rel,
    workflow_path = VStr p /\
    read_file (files s) p = Some file_data /\
    yaml_load w file_data = Some data /\
    In (VStr a) (get_all_actions data) /\
    ~ In a (ignore_actions w) /\
    outdated w a r rel /\
    line = generate_pull_request_body_line r rel.
Proof.
  rewrite check_workflow_spec.
  destruct workflow_path as [[| | |p]| |]; try (now left).
  destruct (read_file (files s) p) as [file_data|] eqn:Hr; [|now left].
  assert (In line (pull_request_body_lines
                     (snd (reconcile w file_data (logged s [GroupChecking p])))) ->
          In line (pull_request_body_lines s) \/
          exists p' file_data' data a r rel,
            VScalar (SStr p) = VStr p' /\
            read_file (files s) p' = Some file_data' /\
            yaml_load w file_data' = Some data /\
            In (VStr a) (get_all_actions data) /\
            ~ In a (ignore_actions w) /\
            outdated w a r rel /\
            line = generate_pull_request_body_line r rel) as H.
  { unfold reconcile. destruct (yaml_load w file_data) as [data|] eqn:Hy; [|now left].
    unfold bind, lift. destruct (actions_to_check w data) as [e|actions] eqn:E; [now left|].
    intros Hin.
    destruct (check_actions_lines_origin _ _ _ _ _ Hin) as [H|(a & r & rel & Ha & Ho & El)];
      [left; exact H|].
    destruct (actions_to_check_in _ _ _ _ E Ha) as [Hx Hi].
    right. exists p, file_data, data, a, r, rel. repeat split; auto. }
  destruct (reconcile w file_data (logged s [GroupChecking p])) as [[e|[text [|]]] s'];
    exact H.
Qed.

(** The same over the list of workflows: the text is the one the file held
    when its turn came, after the workflows listed before it. *)
Lemma check_workflows_lines_origin (w : world) (workflow_paths : list value) (line : string) :
  forall s,
    In line (pull_request_body_lines (snd (check_workflows w workflow_paths s))) ->
    In line (pull_request_body_lines s) \/
    exists before p after file_data data a r rel,
      workflow_paths = before ++ VStr p :: after /\
      read_file (files (snd (check_workflows w before s))) p = Some file_data /\
      yaml_load w file_data = Some data /\
      In (VStr a) (get_all_actions data) /\
      ~ In a (ignore_actions w) /\
      outdated w a r rel /\
      line = generate_pull_request_body_line r rel.
Proof.
  induction workflow_paths as [|x rest IH]; intros s H; [now left|].
  rewrite check_workflows_cons in H.
  destruct (IH _ H)
    as [Hin|(before & p & after & fd & data & a & r & rel & E & Hr & Hrest)].
  - destruct (check_workflow_lines_origin w x s line Hin)
      as [Hs|(p & fd & data & a & r & rel & -> & Hr & Hrest)]; [now left|].
    right. exists [], p, rest, fd, data, a, r, rel. split; [reflexivity|].
    split; [exact Hr | exact Hrest].
  - right. exists (x :: before), p, after, fd, data, a, r, rel.
    split; [now rewrite E|]. split; [|exact Hrest].
    now rewrite check_workflows_cons.
Qed.

(** X16: every line a run ends with, hence every line of the pull-request
    body, is the line of a reference found outdated in a listed workflow:
    there is a listed path whose file, as it was when its turn came (as it
    was at the start, if the path is not listed earlier as well), parsed to
    a document from which the extractor yielded a reference outside the
    ignore set, whose release lookup answered 200 with a tag different from
    its version; and the line is the line of that repository and release. *)
Theorem every_line_reports_an_outdated_reference (w : world) (s : state)
    (workflow_paths : list value) (line : string) :
  fst (get_workflow_paths w s) = inr workflow_paths ->
  In line (pull_request_body_lines (snd (run w s))) ->
  exists before p after file_data data a r rel,
    workflow_paths = before ++ VStr p :: after /\
    read_file (files (snd (check_workflows w before
                             (logged (cleared s) (GetWorkflows :: ignore_echo w)))))
              p = Some file_data /\
    (~ In (VStr p) before -> read_file (files s) p = Some file_data) /\
    yaml_load w file_data = Some data /\
    In (VStr a) (get_all_actions data) /\
    ~ In a (ignore_actions w) /\
    outdated w a r rel /\
    line = generate_pull_request_body_line r rel.
Proof.
  intros P. rewrite run_spec, P. destruct workflow_paths as [|x rest]; [intros []|].
  cbv zeta.
  assert (In line (pull_request_body_lines (after_workflows w (x :: rest) s)) ->
          exists before p after file_data data a r rel,
            x :: rest = before ++ VStr p :: after /\
            read_file (files (snd (check_workflows w before
                                     (logged (cleared s) (GetWorkflows :: ignore_echo w)))))
                      p = Some file_data /\
            (~ In (VStr p) before -> read_file (files s) p = Some file_data) /\
            yaml_load w file_data = Some data /\
            In (VStr a) (get_all_actions data) /\
            ~ In a (ignore_actions w) /\
            outdated w a r rel /\
            line = generate_pull_request_body_line r rel) as H.
  { unfold after_workflows. intros Hin.
    destruct (check_workflows_lines_origin w _ line _ Hin)
      as [[]|(before & p & after & fd & data & a & r & rel & E & Hr & Hrest)].
    exists before, p, after, fd, data, a, r, rel.
    split; [exact E|]. split; [exact Hr|]. split; [|exact Hrest].
    intros Hnot.
    destruct (check_workflows_files w before
                (logged (cleared s) (GetWorkflows :: ignore_echo w))) as (_ & Hread & _).
    rewrite <- Hr. symmetry. exact (Hread p Hnot). }
  destruct (git_has_changes w _); [|exact H].
  destruct (skip_pull_request w); exact H.
Qed.

Lemma every_line_reports_an_outdated_reference_witness :
  exists before p after file_data data a r rel,
    [VStr "ci.yml"] = before ++ VStr p :: after /\
    read_file (files (snd (check_workflows checkout_world before
                             (logged (cleared (mkState [("ci.yml", checkout_text)] [] []))
                                (GetWorkflows :: ignore_echo checkout_world)))))
              p = Some file_data /\
    (~ In (VStr p) before ->
     read_file (files (mkState [("ci.yml", checkout_text)] [] [])) p = Some file_data) /\
    yaml_load checkout_world file_data = Some data /\
    In (VStr a) (get_all_actions data) /\
    ~ In a (ignore_actions checkout_world) /\
    outdated checkout_world a r rel /\
    generate_pull_request_body_line "actions/checkout"
      (mkRelease "2024-01-01T00:00:00Z"
         "https://github.com/actions/checkout/releases/tag/v4" "v4" EmptyString)
    = generate_pull_request_body_line r rel.
Proof.
  apply (every_line_reports_an_outdated_reference checkout_world
           (mkState [("ci.yml", checkout_text)] [] []) [VStr "ci.yml"]).
  - reflexivity.
  - vm_compute. now left.
Defined.

(** ** One line per upgraded repository *)

Lemma nodup_map_on (f : string -> string) (l : list string) :
  (forall x y, In x l -> In y l -> f x = f y -> x = y) ->
  NoDup l -> NoDup (map f l).
Proof.
  induction l as [|x l IH]; intros Hinj N; [constructor|].
  inversion N as [|x' l' Hx Hl]; subst. cbn [map]. constructor.
  - intros Hin. apply in_map_iff in Hin as (y & Ey & Hy).
    assert (y = x) as -> by (apply Hinj; [now right | now left | exact Ey]).
    contradiction.
  - apply IH; [|exact Hl]. intros a b Ha Hb. apply Hinj; now right.
Qed.

(** X19: one line per upgraded repository.  Let the loop run over references
    none of which raises, from an empty set of lines, and let
    [repositories] list, without repetition, the repositories of the
    references found outdated, none of whose names holds a closing bracket.
    Then the set of lines ends with exactly as many lines as there are such
    repositories: the line of each occurs once, whatever the number of
    outdated references to it, and there is no other line. *)
Theorem one_line_per_upgraded_repository
    (w : world) (actions : list scalar) (repositories : list string)
    (locals : string * bool) (s : state) :
  all_checkable w actions ->
  pull_request_body_lines s = [] ->
  NoDup repositories ->
  (forall r, In r repositories <->
             exists a rel, In (SStr a) actions /\ outdated w a r rel) ->
  (forall r, In r repositories -> count_char (Ascii.ascii_of_nat 93) r = 0) ->
  exists text' flag' s',
    check_actions w actions locals s = (inr (text', flag'), s') /\
    List.length (pull_request_body_lines s') = List.length repositories /\
    (forall r, In r repositories ->
       exists rel,
         release_json (latest_release w r) = Some rel /\
         count_occ string_dec (pull_request_body_lines s')
                   (generate_pull_request_body_line r rel) = 1) /\
    (forall line, In line (pull_request_body_lines s') ->
       exists r rel,
         In r repositories /\ release_json (latest_release w r) = Some rel /\
         line = generate_pull_request_body_line r rel).
Proof.
  intros Hok Hempty Hnd Hrep Hbr.
  assert (NoDup (pull_request_body_lines s)) as Hnd0 by (rewrite Hempty; constructor).
  destruct (check_actions_lines w actions Hok locals s Hnd0)
    as (t' & f' & s' & E & N & _ & _ & Ho & Hn).
  exists t', f', s'. split; [exact E|].
  assert (forall r, In r repositories ->
            exists rel, release_json (latest_release w r) = Some rel /\
                        In (generate_pull_request_body_line r rel)
                           (pull_request_body_lines s')) as Hline.
  { intros r Hr. apply Hrep in Hr as (a & rel & Ha & Hout).
    exists rel. split; [|exact (proj2 (Ho a r rel Ha Hout))].
    destruct Hout as (v & _ & _ & Hj & _). exact Hj. }
  assert (forall line, In line (pull_request_body_lines s') ->
            exists r rel, In r repositories /\
                          release_json (latest_release w r) = Some rel /\
                          line = generate_pull_request_body_line r rel) as Horigin.
  { intros line Hin. destruct (Hn line Hin) as [Hold|(a & r & rel & Ha & Hout & El)].
    - rewrite Hempty in Hold. destruct Hold.
    - exists r, rel. split; [apply Hrep; now exists a, rel|].
      split; [|exact El]. destruct Hout as (v & _ & _ & Hj & _). exact Hj. }
  split; [|split; [|exact Horigin]].
  - set (line_of := fun r =>
                      match release_json (latest_release w r) with
                      | Some rel => generate_pull_request_body_line r rel
                      | None => EmptyString
                      end).
    rewrite <- (length_map line_of repositories).
    apply Permutation_length, NoDup_Permutation; [exact N| |].
    + apply nodup_map_on; [|exact Hnd]. intros x y Hx Hy. unfold line_of.
      destruct (Hline x Hx) as (relx & -> & _). destruct (Hline y Hy) as (rely & -> & _).
      unfold generate_pull_request_body_line. intros H.
      apply append_inj_l in H.
      exact (append_until_char (Ascii.ascii_of_nat 93) x y _ _ (Hbr x Hx) (Hbr y Hy) H).
    + intros line. rewrite in_map_iff. split.
      * intros Hin. destruct (Horigin line Hin) as (r & rel & Hr & Hj & ->).
        exists r. split; [|exact Hr]. unfold line_of. now rewrite Hj.
      * intros (r & <- & Hr). destruct (Hline r Hr) as (rel & Hj & Hin).
        unfold line_of. now rewrite Hj.
  - intros r Hr. destruct (Hline r Hr) as (rel & Hj & Hin).
    exists rel. split; [exact Hj|]. now apply nodup_count_one.
Qed.

(** Two outdated references to [a/b]: one line. *)
Lemma one_line_per_upgraded_repository_witness :
  exists text' flag' s',
    check_actions (overlap_world (rank [])) [SStr "a/b@v1"; SStr "a/b@v10"]
      (overlap_text, false) fresh = (inr (text', flag'), s') /\
    List.length (pull_request_body_lines s') = List.length ["a/b"] /\
    (forall r, In r ["a/b"] ->
       exists rel,
         release_json (latest_release (overlap_world (rank [])) r) = Some rel /\
         count_occ string_dec (pull_request_body_lines s')
                   (generate_pull_request_body_line r rel) = 1) /\
    (forall line, In line (pull_request_body_lines s') ->
       exists r rel,
         In r ["a/b"] /\
         release_json (latest_release (overlap_world (rank [])) r) = Some rel /\
         line = generate_pull_request_body_line r rel).
Proof.
  apply (one_line_per_upgraded_repository (overlap_world (rank []))
           [SStr "a/b@v1"; SStr "a/b@v10"] ["a/b"] (overlap_text, false) fresh).
  - apply overlap_world_is_checkable. apply incl_refl.
  - reflexivity.
  - constructor; [intros []|constructor].
  - intros r. split.
    + intros [<-|[]]. exists "a/b@v1". eexists. split; [now left|].
      exists "v1". split; [reflexivity|]. split; [reflexivity|].
      split; [reflexivity | discriminate].
    + intros (a & rel & Ha & (v & Hs & _)). left.
      destruct Ha as [Ha|[Ha|[]]]; injection Ha as <-;
        vm_compute in Hs; now injection Hs as <- _.
  - intros r [<-|[]]. reflexivity.
Defined.
